(** * Shirt Trends Monitor: a shallow embedding of [shirt_trends_monitor.py]

    The development follows the source file top to bottom: the configuration
    constants, the text operations of Python's [str] the script relies on,
    the persisted set of seen phrases, the phrase filter, the Telegram alert
    and the scan loop of [TrendMonitor.run].

    Modelling conventions.
    - A Python [str] is a [string] holding its UTF-8 encoding.  Substring
      search on the encoding is substring search on the characters.
    - The case operations [str.lower] and [str.title] follow the Unicode
      character database of the interpreter, which is no part of the script:
      they are the two operations of the class [Str.Python].  What the
      database says about ASCII text is stated as [Str.ascii_faithful] and is
      assumed only where a property needs it.
    - A Python [set] is a [gset].
    - The outside world (the clock, the Telegram endpoint, the disk, the
      trends service) is an explicit environment [env]; whatever the script
      emits (log records, HTTP posts, file writes) is appended to a trace. *)

From Stdlib Require Import String Ascii ZArith List Lia Permutation.
From stdpp Require Import gmap strings list sets pretty.

Set Warnings "-register-all,-clear-no-such-hyp".
Local Open Scope string_scope.
Local Open Scope Z_scope.

(** ** Python [str] operations *)

Module Str.

Definition is_upper (c : ascii) : bool :=
  let n := nat_of_ascii c in (65 <=? n)%nat && (n <=? 90)%nat.

Definition is_lower (c : ascii) : bool :=
  let n := nat_of_ascii c in (97 <=? n)%nat && (n <=? 122)%nat.

(** Whether an ASCII character is cased, i.e. a letter. *)
Definition is_cased (c : ascii) : bool := is_upper c || is_lower c.

Definition lower_char (c : ascii) : ascii :=
  if is_upper c then ascii_of_nat (nat_of_ascii c + 32) else c.

Definition upper_char (c : ascii) : ascii :=
  if is_lower c then ascii_of_nat (nat_of_ascii c - 32) else c.

(** All characters are ASCII: every byte is below 128. *)
Fixpoint is_ascii (s : string) : bool :=
  match s with
  | EmptyString => true
  | String c s' => (nat_of_ascii c <? 128)%nat && is_ascii s'
  end.

(** [s.lower()] on ASCII text. *)
Fixpoint lower_ascii (s : string) : string :=
  match s with
  | EmptyString => EmptyString
  | String c s' => String (lower_char c) (lower_ascii s')
  end.

(** [needle in hay] for two strings: [needle] occurs in [hay] at some
    offset.  The empty string occurs in every string. *)
Fixpoint contains (needle hay : string) : bool :=
  String.prefix needle hay
  || match hay with
     | EmptyString => false
     | String _ hay' => contains needle hay'
     end.

(** [s.title()] on ASCII text: the first letter of every run of letters is
    upper-cased, the others are lower-cased.  [prev] tells whether the
    previous character was a letter. *)
Fixpoint title_from (prev : bool) (s : string) : string :=
  match s with
  | EmptyString => EmptyString
  | String c s' =>
      String (if prev then lower_char c else upper_char c)
             (title_from (is_cased c) s')
  end.

Definition title_ascii (s : string) : string := title_from false s.

(** The case operations of the interpreter: [s.lower()] and [s.title()]. *)
Class Python : Type := {
  lower : string -> string;
  title : string -> string
}.

(** What the Unicode database says about ASCII text: lower-casing and
    title-casing touch the letters A-Z and a-z only, and the cased ASCII
    characters are the letters. *)
Definition ascii_faithful `{Python} : Prop :=
  (forall s, is_ascii s = true -> lower s = lower_ascii s)
  /\ (forall s, is_ascii s = true -> title s = title_ascii s).

(** The specification of [in]: an occurrence is a decomposition of the
    haystack around the needle. *)
Definition occurs_in (needle hay : string) : Prop :=
  exists pre post : string, hay = pre ++ needle ++ post.

(** [item] occurs in the ASCII text [phrase] up to letter case: some
    substring of [phrase] has the same lower-case form as [item]. *)
Definition occurs_nocase (item phrase : string) : Prop :=
  exists u : string, occurs_in u phrase /\ lower_ascii u = lower_ascii item.

End Str.

(** ** Configuration *)

Definition SEEN_FILE : string := "seen_trends.json".
Definition KEYWORD : string := "shirt".
Definition TIMEFRAME : string := "now 4-H".
Definition GEO : string := "US".

(** The three exclusion sets.  The source declares them as set literals and
    only ever iterates over them looking for one hit, so a list in the order
    of the literal is a faithful representation (see
    [contains_excluded_perm] below: the order is immaterial). *)
Definition EXCLUDED_COLORS : list string :=
  ["white"; "black"; "red"; "blue"; "green"; "yellow";
   "pink"; "purple"; "brown"; "grey"; "gray"; "orange"].

Definition EXCLUDED_MATERIALS : list string :=
  ["linen"; "denim"; "cotton"; "silk"; "wool"].

Definition EXCLUDED_BRANDS : list string :=
  ["supreme"; "bape"; "hardy"; "custom"; "nike"; "adidas"; "armour"; "under";
   "emotions"; "punisher"; "social"; "karl"; "spiderman"; "chanel"].

(** ** The phrase filter *)

Section Filter.
Context `{PY : Str.Python}.

(** The local helper of [is_valid_phrase]: does some entry of the set occur
    in the lower-cased phrase? *)
Definition contains_excluded (lower_phrase : string) (excluded_set : list string) : bool :=
  existsb (fun item => Str.contains item lower_phrase) excluded_set.

(** [TrendMonitor.is_valid_phrase].  The three [logger.debug] calls are below
    the configured level ([logging.INFO]) and emit nothing. *)
Definition is_valid_phrase (phrase : string) : bool :=
  let lower_phrase := Str.lower phrase in
  if negb (Str.contains "shirt" lower_phrase) then false
  else if contains_excluded lower_phrase EXCLUDED_COLORS then false
  else if contains_excluded lower_phrase EXCLUDED_MATERIALS then false
  else if contains_excluded lower_phrase EXCLUDED_BRANDS then false
  else true.

(** Every entry of the three exclusion sets. *)
Definition exclusion_entries : list string :=
  EXCLUDED_COLORS ++ EXCLUDED_MATERIALS ++ EXCLUDED_BRANDS.


End Filter.

(** ** Values, exceptions and the outside world *)

(** A parsed JSON document, as [json.load] returns it.  Number literals with
    a fraction or an exponent (Python floats) and the literals [true] and
    [false] are not represented. *)
Inductive json : Type :=
| JNull
| JNum (n : Z)
| JStr (s : string)
| JArr (items : list json)
| JObj (members : list (string * json)).

(** The hashable values that can be members of [seen_phrases]. *)
Inductive pykey : Type :=
| KNone
| KInt (n : Z)
| KStr (s : string).

Global Instance pykey_eq_dec : EqDecision pykey.
Proof. solve_decision. Defined.

Global Instance pykey_countable : Countable pykey.
Proof.
  refine (inj_countable'
    (fun k => match k with
              | KNone => inl ()
              | KInt n => inr (inl n)
              | KStr s => inr (inr s)
              end)
    (fun x => match x with
              | inl _ => KNone
              | inr (inl n) => KInt n
              | inr (inr s) => KStr s
              end) _).
  by intros [].
Defined.

Inductive exn : Type :=
| JSONDecodeError (msg : string)
| IOError (msg : string)
| UnicodeDecodeError (msg : string)
| TypeError (msg : string)
| SystemExit (code : Z)
| RequestError (msg : string).

(** [str(e)] *)
Definition exn_text (e : exn) : string :=
  match e with
  | JSONDecodeError msg | IOError msg | UnicodeDecodeError msg
  | TypeError msg | RequestError msg => msg
  | SystemExit code => pretty code
  end.

Inductive result (A : Type) : Type :=
| Ok (a : A)
| Raise (e : exn).
Arguments Ok {A} a.
Arguments Raise {A} e.

(** What is on disk under [SEEN_FILE], seen through [os.path.exists],
    [open] and [json.load]. *)
Inductive file : Type :=
| Absent                      (* os.path.exists(SEEN_FILE) is False *)
| Unreadable (msg : string)   (* open() or read() raises IOError *)
| Undecodable (msg : string)  (* the bytes are not text: read() raises UnicodeDecodeError *)
| NotJson (msg : string)      (* the text is no JSON document: JSONDecodeError *)
| Document (data : json).     (* json.load(f) returns data *)

(** The growth indicator of a candidate: a number or a string. *)
Inductive growth : Type :=
| GInt (n : Z)
| GStr (s : string).

Inductive level : Type := DEBUG | INFO | WARNING | ERROR | CRITICAL.

(** What the process emits, in order. *)
Inductive event : Type :=
| Log (lvl : level) (msg : string)
| Evaluate (phrase : string)                           (* a call of is_valid_phrase *)
| Alert (phrase : string) (growth_value : growth)      (* a call of send_telegram_alert *)
| Post (url chat_id text parse_mode : string)          (* requests.post(url, json=payload) *)
| Save (items : list pykey).                           (* a call of _save_seen_phrases *)

(** One record of the rising-queries data frame. *)
Record candidate : Type := { query : string; value : growth }.

(** The answer of the trends service to [related_queries()]. *)
Inductive related : Type :=
| RelatedRaises (msg : string)      (* build_payload or related_queries raises *)
| RelatedEmpty                      (* falsy answer, or KEYWORD is not a key of it *)
| RelatedRising (rising_df : option (list candidate)).

Inductive post_outcome : Type :=
| Responds (status_code : Z) (text : string)
| RequestException (msg : string).

Inductive write_outcome : Type :=
| Written
| WriteFails (msg : string) (left_behind : file).

(** The environment of one process. *)
Record env : Type := {
  getenv_token : option string;          (* os.environ.get('TELEGRAM_BOT_TOKEN') *)
  getenv_channel : option string;        (* os.environ.get('TELEGRAM_CHANNEL_ID') *)
  trendreq : option string;              (* TrendReq(...) raises with this message, if any *)
  trends : related;
  now : nat -> string;                   (* the formatted clock at the k-th alert *)
  post : nat -> post_outcome;            (* what the k-th requests.post does *)
  set_order : gset pykey -> list pykey;  (* the iteration order of a set *)
  write : write_outcome                  (* what opening and writing SEEN_FILE does *)
}.

(** A set is iterated in some order, each member once. *)
Definition env_ok (E : env) : Prop :=
  forall s : gset pykey, set_order E s ≡ₚ elements s.

Record world : Type := {
  disk : file;            (* the content of SEEN_FILE *)
  alerts : nat;           (* calls of send_telegram_alert so far *)
  trace : list event
}.

Definition emit (e : event) (w : world) : world :=
  {| disk := disk w; alerts := alerts w; trace := trace w ++ [e] |}.

(** ** The deduplication store *)

(** Hashing a decoded JSON value: lists and dicts are unhashable. *)
Definition key_of_json (j : json) : option pykey :=
  match j with
  | JNull => Some KNone
  | JNum n => Some (KInt n)
  | JStr s => Some (KStr s)
  | JArr _ | JObj _ => None
  end.

Definition json_of_key (k : pykey) : json :=
  match k with
  | KNone => JNull
  | KInt n => JNum n
  | KStr s => JStr s
  end.

(** A byte that continues a UTF-8 sequence. *)
Definition is_continuation (c : ascii) : bool :=
  let n := nat_of_ascii c in (128 <=? n)%nat && (n <? 192)%nat.

(** The characters of [s] read from the right: the continuation bytes that
    still wait for their leading byte, and the characters completed. *)
Fixpoint split_chars (s : string) : string * list string :=
  match s with
  | EmptyString => (EmptyString, [])
  | String c s' =>
      let '(pending, complete) := split_chars s' in
      if is_continuation c then (String c pending, complete)
      else (EmptyString, String c pending :: complete)
  end.

(** Iterating over a string: its characters, each a string of length one
    (one UTF-8 sequence). *)
Definition chars (s : string) : list string :=
  match split_chars s with
  | (EmptyString, complete) => complete
  | (pending, complete) => pending :: complete
  end.

(** The message of the [TypeError] that hashing the members of an array
    raises: it names the type of the first unhashable member. *)
Definition unhashable_text (items : list json) : string :=
  match List.find (fun j => match key_of_json j with None => true | Some _ => false end) items with
  | Some (JObj _) => "unhashable type: 'dict'"
  | _ => "unhashable type: 'list'"
  end.

(** [set(data)] for a decoded JSON value: the members of an array, the
    characters of a string, the keys of an object; anything else is not
    iterable. *)
Definition py_set (data : json) : result (gset pykey) :=
  match data with
  | JArr items =>
      match mapM key_of_json items with
      | Some keys => Ok (list_to_set keys)
      | None => Raise (TypeError (unhashable_text items))
      end
  | JStr s => Ok (list_to_set (KStr <$> chars s))
  | JObj members => Ok (list_to_set ((fun m => KStr m.1) <$> members))
  | JNull => Raise (TypeError "'NoneType' object is not iterable")
  | JNum _ => Raise (TypeError "'int' object is not iterable")
  end.

(** [with open(SEEN_FILE, 'r') as f: data = json.load(f)] *)
Definition json_load (d : file) : result json :=
  match d with
  | Absent => Raise (IOError "No such file or directory")
  | Unreadable msg => Raise (IOError msg)
  | Undecodable msg => Raise (UnicodeDecodeError msg)
  | NotJson msg => Raise (JSONDecodeError msg)
  | Document data => Ok data
  end.

(** [TrendMonitor._load_seen_phrases].  The [except] clause handles
    [json.JSONDecodeError] and [IOError]; every other exception leaves the
    method. *)
Definition _load_seen_phrases (w : world) : result (gset pykey) * world :=
  match disk w with
  | Absent => (Ok ∅, w)
  | _ =>
      let attempt :=
        match json_load (disk w) with
        | Ok data => py_set data
        | Raise e => Raise e
        end in
      match attempt with
      | Raise (JSONDecodeError _) | Raise (IOError _) =>
          (Ok ∅, emit (Log WARNING "Could not read seen_trends.json. Starting fresh.") w)
      | other => (other, w)
      end
  end.

(** [TrendMonitor._save_seen_phrases] *)
Definition _save_seen_phrases (E : env) (seen_phrases : gset pykey) (w : world) : world :=
  let items := set_order E seen_phrases in
  let w := emit (Save items) w in
  match write E with
  | Written =>
      {| disk := Document (JArr (json_of_key <$> items));
         alerts := alerts w; trace := trace w |}
  | WriteFails msg left_behind =>
      emit (Log ERROR ("Failed to save seen phrases: " ++ msg))
        {| disk := left_behind; alerts := alerts w; trace := trace w |}
  end.

(** ** The alert *)

Section Monitor.
Context `{PY : Str.Python}.

Definition nl : string := String (ascii_of_nat 10) EmptyString.

(** [str(growth_value)] *)
Definition py_str (growth_value : growth) : string :=
  match growth_value with
  | GInt n => pretty n
  | GStr s => s
  end.

Definition growth_str (growth_value : growth) : string :=
  if String.eqb (Str.lower (py_str growth_value)) "breakout"
  then "BREAKOUT"
  else "+" ++ py_str growth_value ++ "%".

(** The text of the alert; the first characters are those of the string
    literal of the source. *)
Definition message (phrase : string) (growth_value : growth) (timestamp : string) : string :=
  "ðŸ‘• <b>NEW TREND DETECTED</b>" ++ nl ++ nl
  ++ "Phrase: <b>" ++ Str.title phrase ++ "</b>" ++ nl
  ++ "Growth: " ++ growth_str growth_value ++ nl
  ++ "Status: RISING" ++ nl
  ++ "Time: " ++ timestamp.

Record TrendMonitor : Type := {
  bot_token : string;
  channel_id : string;
  seen_phrases : gset pykey
}.

(** [TrendMonitor.send_telegram_alert].  Both a non-200 answer and a
    [RequestException] are logged and swallowed. *)
Definition send_telegram_alert (E : env) (self : TrendMonitor)
    (phrase : string) (growth_value : growth) (w : world) : world :=
  let k := alerts w in
  let timestamp := now E k in
  let url := "https://api.telegram.org/bot" ++ bot_token self ++ "/sendMessage" in
  let w := {| disk := disk w; alerts := S k;
              trace := trace w ++ [Alert phrase growth_value;
                                   Post url (channel_id self)
                                     (message phrase growth_value timestamp) "HTML"] |} in
  match post E k with
  | Responds status_code text =>
      if negb (status_code =? 200)
      then emit (Log ERROR ("Telegram Send Failed: " ++ text)) w
      else emit (Log INFO ("Alert sent for: " ++ phrase)) w
  | RequestException msg =>
      emit (Log ERROR ("Connection error sending Telegram alert: " ++ msg)) w
  end.

(** ** The scan *)

(** [TrendMonitor.fetch_rising_queries] *)
Definition fetch_rising_queries (E : env) (w : world) : list candidate * world :=
  match trends E with
  | RelatedRaises msg => ([], emit (Log ERROR ("API Error fetching trends: " ++ msg)) w)
  | RelatedEmpty => ([], emit (Log WARNING "Empty response from Google Trends API.") w)
  | RelatedRising None | RelatedRising (Some []) =>
      ([], emit (Log INFO "No rising trends found currently.") w)
  | RelatedRising (Some records) => (records, w)
  end.

(** The variables the loop of [run] updates. *)
Record scan : Type := {
  self : TrendMonitor;
  new_trends_found : nat;
  outside : world
}.

Definition mark_seen (phrase : string) (m : TrendMonitor) : TrendMonitor :=
  {| bot_token := bot_token m; channel_id := channel_id m;
     seen_phrases := {[ KStr phrase ]} ∪ seen_phrases m |}.

(** The body of [for item in potential_trends]. *)
Definition run_item (E : env) (st : scan) (item : candidate) : scan :=
  let query := query item in
  let value := value item in
  if decide (KStr query ∈ seen_phrases (self st)) then st
  else
    let w := emit (Evaluate query) (outside st) in
    if is_valid_phrase query then
      let w := send_telegram_alert E (self st) query value w in
      {| self := mark_seen query (self st);
         new_trends_found := S (new_trends_found st);
         outside := w |}
    else
      {| self := self st; new_trends_found := new_trends_found st; outside := w |}.

Definition run_loop (E : env) (st : scan) (potential_trends : list candidate) : scan :=
  fold_left (run_item E) potential_trends st.

(** What follows the loop: persist if and only if something was alerted. *)
Definition run_finish (E : env) (st : scan) : TrendMonitor * world :=
  if (0 <? new_trends_found st)%nat then
    let w := _save_seen_phrases E (seen_phrases (self st)) (outside st) in
    (self st, emit (Log INFO ("Scan complete. " ++ pretty (new_trends_found st)
                               ++ " new alerts sent.")) w)
  else
    (self st, emit (Log INFO "Scan complete. No new valid trends found.") (outside st)).

(** [TrendMonitor.run] *)
Definition run (E : env) (m : TrendMonitor) (w : world) : TrendMonitor * world :=
  let w := emit (Log INFO "Starting trend scan...") w in
  let '(potential_trends, w) := fetch_rising_queries E w in
  run_finish E
    (run_loop E {| self := m; new_trends_found := 0; outside := w |} potential_trends).

(** A value is falsy when it is [None] or the empty string. *)
Definition truthy (v : option string) : bool :=
  match v with
  | Some (String _ _) => true
  | _ => false
  end.

(** [TrendMonitor.__init__] *)
Definition __init__ (E : env) (w : world) : result TrendMonitor * world :=
  if negb (truthy (getenv_token E)) || negb (truthy (getenv_channel E)) then
    (Raise (SystemExit 1),
     emit (Log ERROR "Missing TELEGRAM_BOT_TOKEN or TELEGRAM_CHANNEL_ID env vars.") w)
  else
    match trendreq E with
    | Some msg => (Raise (RequestError msg), w)
    | None =>
        match _load_seen_phrases w with
        | (Ok seen, w) =>
            (Ok {| bot_token := default "" (getenv_token E);
                   channel_id := default "" (getenv_channel E);
                   seen_phrases := seen |}, w)
        | (Raise e, w) => (Raise e, w)
        end
    end.

(** The [__main__] block: the exit status of the process and what it left
    behind. *)
Definition main (E : env) (w : world) : Z * world :=
  match __init__ E w with
  | (Ok monitor, w) => (0, snd (run E monitor w))
  | (Raise (SystemExit code), w) => (code, w)
  | (Raise e, w) => (1, emit (Log CRITICAL ("Unhandled exception: " ++ exn_text e)) w)
  end.

(** Only the file survives the process: the next one starts on the disk the
    previous one left. *)
Definition boot (d : file) : world := {| disk := d; alerts := 0; trace := [] |}.

(** ** Reading a trace *)

Definition alerted (t : list event) : list string :=
  omap (fun e => match e with Alert phrase _ => Some phrase | _ => None end) t.

Definition evaluated (t : list event) : list string :=
  omap (fun e => match e with Evaluate phrase => Some phrase | _ => None end) t.

Definition save_calls (t : list event) : list (list pykey) :=
  omap (fun e => match e with Save items => Some items | _ => None end) t.

Definition posted (t : list event) : list string :=
  omap (fun e => match e with Post _ _ text _ => Some text | _ => None end) t.

Definition logged (t : list event) : list (level * string) :=
  omap (fun e => match e with Log lvl msg => Some (lvl, msg) | _ => None end) t.

(** The same environment with another Telegram endpoint. *)
Definition with_post (E : env) (p : nat -> post_outcome) : env :=
  {| getenv_token := getenv_token E;
     getenv_channel := getenv_channel E;
     trendreq := trendreq E;
     trends := trends E;
     now := now E;
     post := p;
     set_order := set_order E;
     write := write E |}.

(** The list [fetch_rising_queries] returns, which [run] binds to
    [potential_trends]. *)
Definition potential_trends (E : env) : list candidate :=
  fst (fetch_rising_queries E (boot Absent)).

Definition is_log (e : event) : bool :=
  match e with Log _ _ => true | _ => false end.

(** What one pass of the loop over [cs] does, from [st] to [st'], having
    emitted [Δ]. *)
Record loop_facts (cs : list candidate) (st st' : scan) (Δ : list event) : Prop := {
  lf_trace : trace (outside st') = (trace (outside st) ++ Δ)%list;
  lf_disk : disk (outside st') = disk (outside st);
  lf_alerts : alerts (outside st') = (alerts (outside st) + length (alerted Δ))%nat;
  lf_token : bot_token (self st') = bot_token (self st);
  lf_channel : channel_id (self st') = channel_id (self st);
  lf_seen : seen_phrases (self st')
            = list_to_set (KStr <$> alerted Δ) ∪ seen_phrases (self st);
  lf_count : new_trends_found st' = (new_trends_found st + length (alerted Δ))%nat;
  lf_nodup : NoDup (alerted Δ);
  lf_fresh : forall q, q ∈ alerted Δ ->
             (KStr q ∉ seen_phrases (self st)) /\ is_valid_phrase q = true
             /\ q ∈ (query <$> cs);
  lf_complete : forall c, c ∈ cs -> is_valid_phrase (query c) = true ->
                KStr (query c) ∈ seen_phrases (self st');
  lf_evaluated : forall q, q ∈ evaluated Δ ->
                 (KStr q ∉ seen_phrases (self st)) /\ q ∈ (query <$> cs);
  lf_rejected : forall q, q ∈ evaluated Δ -> is_valid_phrase q = false ->
                KStr q ∉ seen_phrases (self st');
  lf_saves : save_calls Δ = [];
  lf_posted : length (posted Δ) = length (alerted Δ)
}.

(** What the disk holds after a save of [s]. *)
Definition saved (E : env) (s : gset pykey) : file :=
  match write E with
  | Written => Document (JArr (json_of_key <$> set_order E s))
  | WriteFails _ left_behind => left_behind
  end.

(** What one call of [run] does, from monitor [m] in world [w] to [m'] in
    [w']: [A] lists the phrases alerted, [V] the phrases evaluated, in
    order. *)
Record run_facts (E : env) (m : TrendMonitor) (w : world)
    (m' : TrendMonitor) (w' : world) (A V : list string) : Prop := {
  rf_alerted : alerted (trace w') = (alerted (trace w) ++ A)%list;
  rf_evaluated : evaluated (trace w') = (evaluated (trace w) ++ V)%list;
  rf_posted : length (posted (trace w')) = (length (posted (trace w)) + length A)%nat;
  rf_saves : save_calls (trace w')
              = (save_calls (trace w)
                 ++ match A with [] => [] | _ :: _ => [set_order E (seen_phrases m')] end)%list;
  rf_disk : disk w' = match A with [] => disk w | _ :: _ => saved E (seen_phrases m') end;
  rf_seen : seen_phrases m' = list_to_set (KStr <$> A) ∪ seen_phrases m;
  rf_nodup : NoDup A;
  rf_fresh : forall q, q ∈ A ->
             (KStr q ∉ seen_phrases m) /\ is_valid_phrase q = true
             /\ q ∈ (query <$> potential_trends E);
  rf_complete : forall c, c ∈ potential_trends E -> is_valid_phrase (query c) = true ->
                KStr (query c) ∈ seen_phrases m';
  rf_unseen : forall q, q ∈ V -> KStr q ∉ seen_phrases m;
  rf_rejected : forall q, q ∈ V -> is_valid_phrase q = false -> KStr q ∉ seen_phrases m'
}.

(** The trace without its log records: what the process did to the world. *)
Definition effects (t : list event) : list event :=
  filter (fun e => is_log e = false) t.

(** Two loop states that differ in their log records only. *)
Definition same_effects (st1 st2 : scan) : Prop :=
  self st1 = self st2
  /\ new_trends_found st1 = new_trends_found st2
  /\ disk (outside st1) = disk (outside st2)
  /\ alerts (outside st1) = alerts (outside st2)
  /\ effects (trace (outside st1)) = effects (trace (outside st2)).

(** Whether the text read so far, after a character that was cased or not
    ([prev]), ends in a cased character: the state of [title_from]. *)
Fixpoint ends_cased (prev : bool) (s : string) : bool :=
  match s with
  | EmptyString => prev
  | String c s' => ends_cased (Str.is_cased c) s'
  end.

(** The text starts with a character that is no letter. *)
Definition head_uncased (s : string) : bool :=
  match s with
  | EmptyString => false
  | String c _ => negb (Str.is_cased c)
  end.

(** ** Summaries used to state what a scan sends *)

(** The calls of [send_telegram_alert] recorded in a trace, each as the
    candidate it was made for. *)
Definition alert_calls (t : list event) : list candidate :=
  omap (fun e => match e with
                 | Alert phrase growth_value => Some {| query := phrase; value := growth_value |}
                 | _ => None
                 end) t.

(** The posts recorded in a trace: url, chat id, text and parse mode. *)
Definition post_calls (t : list event) : list (string * string * string * string) :=
  omap (fun e => match e with
                 | Post url chat_id text parse_mode => Some (url, chat_id, text, parse_mode)
                 | _ => None
                 end) t.

(** The candidates one pass over [cs] alerts when it starts with the store
    [seen]: those that are not in the store when their turn comes and that
    the filter accepts, in the order of the feed. *)
Fixpoint new_alerts (seen : gset pykey) (cs : list candidate) : list candidate :=
  match cs with
  | [] => []
  | c :: cs =>
      if decide (KStr (query c) ∈ seen) then new_alerts seen cs
      else if is_valid_phrase (query c)
           then c :: new_alerts ({[ KStr (query c) ]} ∪ seen) cs
           else new_alerts seen cs
  end.

(** The post that [send_telegram_alert] makes for candidate [c] when [k]
    alerts were sent before it. *)
Definition post_for (E : env) (m : TrendMonitor) (k : nat) (c : candidate)
    : string * string * string * string :=
  ("https://api.telegram.org/bot" ++ bot_token m ++ "/sendMessage",
   channel_id m,
   message (query c) (value c) (now E k),
   "HTML").

(** The store after the candidates [cs] were marked seen. *)
Definition marked (cs : list candidate) (seen : gset pykey) : gset pykey :=
  list_to_set ((fun c => KStr (query c)) <$> cs) ∪ seen.

End Monitor.

(** ** Concrete inputs *)

(** An interpreter restricted to ASCII text: on ASCII text its case
    operations are Python's ([ascii_python_faithful] below); on other text
    they leave the non-ASCII bytes alone, which is not what Python does.  It
    serves to evaluate the script on concrete ASCII inputs; the properties
    below hold for every interpreter. *)
Global Instance ascii_python : Str.Python :=
  {| Str.lower := Str.lower_ascii; Str.title := Str.title_ascii |}.

(** An environment with valid credentials and a reachable trends service,
    used to run the script on concrete inputs. *)
Definition sample_env (tr : related) (p : nat -> post_outcome) (wr : write_outcome) : env :=
  {| getenv_token := Some "123456:token";
     getenv_channel := Some "@QuietWhaleChannel";
     trendreq := None;
     trends := tr;
     now := fun _ => "2024-05-01 12:00:00";
     post := p;
     set_order := elements;
     write := wr |}.

(** A feed with a phrase that qualifies, listed twice, and one that the
    filter rejects. *)
Definition sample_trends : related :=
  RelatedRising (Some [ {| query := "Oversized Shirt"; value := GStr "250" |};
                        {| query := "Red Denim Shirt"; value := GStr "Breakout" |};
                        {| query := "Oversized Shirt"; value := GInt 300 |} ]).

Definition all_fail : nat -> post_outcome := fun _ => RequestException "timed out".
Definition all_sent : nat -> post_outcome := fun _ => Responds 200 "ok".

(** Concrete runs: a first process on an empty disk and a second one on the
    disk the first one left. *)
Definition demo_env : env := sample_env sample_trends all_sent Written.
Definition demo_first : world := snd (main demo_env (boot Absent)).
Definition demo_second : world := snd (main demo_env (boot (disk demo_first))).

(** A monitor whose store holds the lower-case spelling of a phrase, and a
    candidate with the same phrase in title case. *)
Definition lowercase_store : scan :=
  {| self := {| bot_token := "123456:token"; channel_id := "@QuietWhaleChannel";
                seen_phrases := {[ KStr "oversized shirt" ]} |};
     new_trends_found := 0;
     outside := boot (Document (JArr [JStr "oversized shirt"])) |}.

Definition titlecase_item : candidate :=
  {| query := "Oversized Shirt"; value := GStr "250" |}.

(** An environment in which every post to Telegram fails, and a monitor with
    an empty store. *)
Definition failing_env : env := sample_env sample_trends all_fail Written.

Definition fresh_monitor : TrendMonitor :=
  {| bot_token := "123456:token"; channel_id := "@QuietWhaleChannel"; seen_phrases := ∅ |}.

(** An environment in which the store file cannot be written and stays as it
    was, with the two processes that run in it one after the other. *)
Definition unwritable_env : env :=
  sample_env sample_trends all_sent (WriteFails "Permission denied" Absent).
Definition unwritable_first : world := snd (main unwritable_env (boot Absent)).
Definition unwritable_second : world :=
  snd (main unwritable_env (boot (disk unwritable_first))).

(** * Properties *)

(** ** Strings *)

Example title_examples :
  Str.title_ascii "oversized shirt" = "Oversized Shirt"
  /\ Str.title_ascii "men's 3d SHIRT" = "Men'S 3D Shirt".
Proof. split; reflexivity. Qed.

Module StrFacts.
Import Str.

Lemma prefix_spec (needle hay : string) :
  String.prefix needle hay = true <-> exists post, hay = needle ++ post.
Proof.
  revert hay. induction needle as [|a needle IH]; intros hay.
  - split; [intros _; by exists hay | by destruct hay].
  - destruct hay as [|b hay]; simpl.
    + split; [done | intros [post H]; discriminate H].
    + destruct (ascii_dec a b) as [->|Hab].
      * rewrite IH. split; intros [post H]; exists post; [by rewrite H | by injection H].
      * split; [done | intros [post H]; injection H; congruence].
Qed.

(** [contains] decides [occurs_in]. *)
Lemma contains_spec (needle hay : string) :
  contains needle hay = true <-> occurs_in needle hay.
Proof.
  unfold occurs_in. induction hay as [|c hay IH]; cbn [contains].
  - rewrite orb_false_r, prefix_spec. split.
    + intros [post H]. by exists "", post.
    + intros (pre & post & H). destruct pre; [by exists post|discriminate H].
  - rewrite orb_true_iff, prefix_spec, IH. split.
    + intros [[post H]|(pre & post & H)].
      * by exists "", post.
      * exists (String c pre), post. simpl. by rewrite H.
    + intros (pre & post & H). destruct pre as [|c' pre]; simpl in H.
      * left. by exists post.
      * right. injection H as _ H. by exists pre, post.
Qed.

Lemma contains_false (needle hay : string) :
  contains needle hay = false <-> ~ occurs_in needle hay.
Proof. rewrite <- contains_spec. by destruct (contains needle hay). Qed.

Lemma lower_app (s t : string) : lower_ascii (s ++ t) = lower_ascii s ++ lower_ascii t.
Proof. induction s as [|c s IH]; simpl; [done | by rewrite IH]. Qed.

(** A decomposition of [lower_ascii s] comes from a decomposition of [s]. *)
Lemma lower_split (s x y : string) :
  lower_ascii s = x ++ y -> exists a b, s = a ++ b /\ lower_ascii a = x /\ lower_ascii b = y.
Proof.
  revert s. induction x as [|c x IH]; intros s H; simpl in H.
  - by exists "", s.
  - destruct s as [|d s]; [discriminate H|]. simpl in H. injection H as Hc H.
    destruct (IH s H) as (a & b & -> & Ha & Hb).
    exists (String d a), b. simpl. by rewrite Hc, Ha.
Qed.

Lemma lower_char_idemp (c : ascii) : lower_char (lower_char c) = lower_char c.
Proof.
  unfold lower_char. destruct (is_upper c) eqn:Hc; [|by rewrite Hc].
  unfold is_upper in *. apply andb_true_iff in Hc as [H1 H2].
  apply Nat.leb_le in H1, H2.
  rewrite nat_ascii_embedding by lia.
  replace (65 <=? nat_of_ascii c + 32)%nat with true by (symmetry; apply Nat.leb_le; lia).
  replace (nat_of_ascii c + 32 <=? 90)%nat with false by (symmetry; apply Nat.leb_gt; lia).
  done.
Qed.

Lemma lower_idemp (s : string) : lower_ascii (lower_ascii s) = lower_ascii s.
Proof. induction s as [|c s IH]; simpl; [done | by rewrite lower_char_idemp, IH]. Qed.

Lemma is_ascii_app (s t : string) : is_ascii (s ++ t) = is_ascii s && is_ascii t.
Proof. induction s as [|c s IH]; simpl; [done | by rewrite IH, andb_assoc]. Qed.

Lemma lower_ascii_is_ascii (s : string) : is_ascii s = true -> is_ascii (lower_ascii s) = true.
Proof.
  induction s as [|c s IH]; simpl; [done|].
  intros [Hc Hs]%andb_true_iff. rewrite (IH Hs), andb_true_r.
  unfold lower_char. destruct (is_upper c) eqn:Hu; [|done].
  unfold is_upper in Hu. apply andb_true_iff in Hu as [H1 H2]. apply Nat.leb_le in H1, H2.
  rewrite nat_ascii_embedding by lia. apply Nat.ltb_lt. lia.
Qed.

End StrFacts.

Module FilterFacts.
Import Str StrFacts.

Section with_python.
Context `{PY : Str.Python}.

Lemma occurs_nocase_spec (item phrase : string) :
  occurs_nocase item phrase <-> occurs_in (lower_ascii item) (lower_ascii phrase).
Proof.
  split.
  - intros (u & (pre & post & ->) & Hu).
    exists (lower_ascii pre), (lower_ascii post). by rewrite !lower_app, Hu.
  - intros (x & z & H).
    apply lower_split in H as (a & bc & -> & _ & H).
    apply lower_split in H as (b & c & -> & Hb & _).
    exists b. split; [by exists a, c | done].
Qed.

Lemma exclusion_entries_lower :
  Forall (fun item => lower_ascii item = item /\ is_ascii item = true) exclusion_entries.
Proof. repeat constructor. Qed.

Lemma contains_excluded_spec (lower_phrase : string) (excluded_set : list string) :
  contains_excluded lower_phrase excluded_set = true
  <-> exists item, item ∈ excluded_set /\ occurs_in item lower_phrase.
Proof.
  unfold contains_excluded. rewrite existsb_exists.
  split; intros (item & Hin & H); exists item;
    (split; [by apply list_elem_of_In | by apply contains_spec]).
Qed.

(** The order in which the set is iterated does not matter. *)
Lemma contains_excluded_perm (lower_phrase : string) (l1 l2 : list string) :
  l1 ≡ₚ l2 -> contains_excluded lower_phrase l1 = contains_excluded lower_phrase l2.
Proof.
  intros Hp. apply eq_true_iff_eq. rewrite !contains_excluded_spec.
  split; intros (item & Hin & H); exists item; split; try done;
    first [by rewrite <- Hp | by rewrite Hp].
Qed.

(** The filter accepts exactly the phrases whose lower-case form contains
    the keyword and no exclusion entry. *)
Lemma is_valid_phrase_iff (phrase : string) :
  is_valid_phrase phrase = true
  <-> occurs_in "shirt" (lower phrase)
      /\ forall item, item ∈ exclusion_entries -> ~ occurs_in item (lower phrase).
Proof.
  unfold is_valid_phrase, exclusion_entries. cbv zeta.
  destruct (contains "shirt" (lower phrase)) eqn:Hk; cbn [negb].
  - apply contains_spec in Hk.
    destruct (contains_excluded (lower phrase) EXCLUDED_COLORS) eqn:Hc;
      [|destruct (contains_excluded (lower phrase) EXCLUDED_MATERIALS) eqn:Hm;
        [|destruct (contains_excluded (lower phrase) EXCLUDED_BRANDS) eqn:Hb]].
    1-3: split; [done|]; intros [_ Hno];
      match goal with H : contains_excluded _ _ = true |- _ =>
        apply contains_excluded_spec in H as (item & Hin & Hocc) end;
      exfalso; apply (Hno item); [rewrite !elem_of_app; tauto | done].
    split; [intros _|done]. split; [done|].
    intros item Hin Hocc. rewrite !elem_of_app in Hin.
    assert (forall l : list string, item ∈ l -> contains_excluded (lower phrase) l = true) as Hyes
      by (intros l Hl; apply contains_excluded_spec; eauto).
    destruct Hin as [Hin|[Hin|Hin]]; apply Hyes in Hin; congruence.
  - split; [done|]. intros [Hk' _]. apply contains_spec in Hk'. congruence.
Qed.

End with_python.

End FilterFacts.

Module StoreFacts.

Section with_python.
Context `{PY : Str.Python}.

Lemma sample_env_ok tr p wr : env_ok (sample_env tr p wr).
Proof. intros s. reflexivity. Qed.

Lemma mapM_key_of_json (keys : list pykey) :
  mapM key_of_json (json_of_key <$> keys) = Some keys.
Proof.
  apply mapM_Some. induction keys as [|k keys IH]; simpl; constructor; [by destruct k | done].
Qed.

Lemma list_to_set_order (E : env) (s : gset pykey) :
  env_ok E -> list_to_set (set_order E s) = s.
Proof.
  intros HE. apply set_eq. intros k.
  by rewrite elem_of_list_to_set, (HE s), elem_of_elements.
Qed.

(** Decoding what was encoded gives the set back. *)
Lemma py_set_dump (E : env) (s : gset pykey) :
  env_ok E -> py_set (JArr (json_of_key <$> set_order E s)) = Ok s.
Proof.
  intros HE. unfold py_set. by rewrite mapM_key_of_json, list_to_set_order.
Qed.

Lemma load_document (data : json) (w : world) (s : gset pykey) :
  disk w = Document data -> py_set data = Ok s ->
  _load_seen_phrases w = (Ok s, w).
Proof. intros Hd Hs. unfold _load_seen_phrases. by rewrite Hd; simpl; rewrite Hs. Qed.

Lemma load_absent (w : world) :
  disk w = Absent -> _load_seen_phrases w = (Ok ∅, w).
Proof. intros Hd. unfold _load_seen_phrases. by rewrite Hd. Qed.

(** Text that is no JSON document, and a file that cannot be read: a
    warning and a fresh start. *)
Lemma load_not_json (w : world) (msg : string) :
  disk w = NotJson msg \/ disk w = Unreadable msg ->
  _load_seen_phrases w
  = (Ok ∅, emit (Log WARNING "Could not read seen_trends.json. Starting fresh.") w).
Proof. intros [Hd|Hd]; unfold _load_seen_phrases; by rewrite Hd. Qed.

(** The load depends on the disk only. *)
Lemma load_result_disk (w w' : world) :
  disk w = disk w' -> fst (_load_seen_phrases w) = fst (_load_seen_phrases w').
Proof.
  intros Hd. unfold _load_seen_phrases. rewrite Hd.
  destruct (disk w') as [| | | |data]; try done.
  simpl. by destruct (py_set data) as [?|[]].
Qed.

Lemma load_disk (w : world) : disk (snd (_load_seen_phrases w)) = disk w.
Proof.
  unfold _load_seen_phrases.
  destruct (disk w) as [| | | |data] eqn:Hd; try done.
  simpl. by destruct (py_set data) as [?|[]].
Qed.

Lemma load_alerted (w : world) :
  alerted (trace (snd (_load_seen_phrases w))) = alerted (trace w).
Proof.
  unfold _load_seen_phrases, alerted.
  destruct (disk w) as [| | | |data] eqn:Hd; simpl; rewrite ?omap_app, ?app_nil_r; try done.
  destruct (py_set data) as [?|[]]; simpl; rewrite ?omap_app, ?app_nil_r; done.
Qed.

Lemma save_written (E : env) (s : gset pykey) (w : world) :
  write E = Written ->
  _save_seen_phrases E s w
  = {| disk := Document (JArr (json_of_key <$> set_order E s));
       alerts := alerts w;
       trace := trace w ++ [Save (set_order E s)] |}.
Proof. intros Hw. unfold _save_seen_phrases. by rewrite Hw. Qed.

Lemma save_then_load (E : env) (s : gset pykey) (w : world) :
  env_ok E -> write E = Written ->
  _load_seen_phrases (_save_seen_phrases E s w) = (Ok s, _save_seen_phrases E s w).
Proof.
  intros HE Hw. eapply load_document; [|by apply py_set_dump].
  by rewrite save_written.
Qed.

End with_python.

End StoreFacts.

Module ScanFacts.

Section with_python.
Context `{PY : Str.Python}.

Lemma alerted_app (t1 t2 : list event) :
  alerted (t1 ++ t2) = (alerted t1 ++ alerted t2)%list.
Proof. apply omap_app. Qed.

Lemma evaluated_app (t1 t2 : list event) :
  evaluated (t1 ++ t2) = (evaluated t1 ++ evaluated t2)%list.
Proof. apply omap_app. Qed.

Lemma save_calls_app (t1 t2 : list event) :
  save_calls (t1 ++ t2) = (save_calls t1 ++ save_calls t2)%list.
Proof. apply omap_app. Qed.

Lemma posted_app (t1 t2 : list event) :
  posted (t1 ++ t2) = (posted t1 ++ posted t2)%list.
Proof. apply omap_app. Qed.

(** One call of [send_telegram_alert] posts one message and writes one log
    record, whatever the endpoint answers. *)
Lemma send_telegram_alert_spec (E : env) (m : TrendMonitor)
    (phrase : string) (g : growth) (w : world) :
  exists lvl msg,
    send_telegram_alert E m phrase g w
    = {| disk := disk w; alerts := S (alerts w);
         trace := trace w ++
           [Alert phrase g;
            Post ("https://api.telegram.org/bot" ++ bot_token m ++ "/sendMessage")
                 (channel_id m) (message phrase g (now E (alerts w))) "HTML";
            Log lvl msg] |}.
Proof.
  unfold send_telegram_alert, emit. simpl.
  destruct (post E (alerts w)) as [status text|msg]; [destruct (negb (status =? 200))|];
    simpl; rewrite <- app_assoc; simpl; eauto.
Qed.

(** The three ways through the loop body. *)
Lemma run_item_cases (E : env) (st : scan) (item : candidate) :
  (KStr (query item) ∈ seen_phrases (self st) /\ run_item E st item = st)
  \/ ((KStr (query item) ∉ seen_phrases (self st))
      /\ is_valid_phrase (query item) = false
      /\ run_item E st item
         = {| self := self st; new_trends_found := new_trends_found st;
              outside := emit (Evaluate (query item)) (outside st) |})
  \/ ((KStr (query item) ∉ seen_phrases (self st))
      /\ is_valid_phrase (query item) = true
      /\ exists url text lvl msg,
         run_item E st item
         = {| self := mark_seen (query item) (self st);
              new_trends_found := S (new_trends_found st);
              outside :=
                {| disk := disk (outside st);
                   alerts := S (alerts (outside st));
                   trace := trace (outside st) ++
                     [Evaluate (query item); Alert (query item) (value item);
                      Post url (channel_id (self st)) text "HTML"; Log lvl msg] |} |}).
Proof.
  unfold run_item. destruct (decide (KStr (query item) ∈ seen_phrases (self st))) as [Hin|Hin].
  - by left.
  - right. destruct (is_valid_phrase (query item)) eqn:Hv.
    + right. split; [done|]. split; [done|].
      destruct (send_telegram_alert_spec E (self st) (query item) (value item)
                  (emit (Evaluate (query item)) (outside st))) as (lvl & msg & ->).
      do 4 eexists. simpl. by rewrite <- app_assoc.
    + by left.
Qed.

(** A candidate whose phrase is in the store is skipped: the loop body
    returns its state unchanged. *)
Lemma skip_when_seen (E : env) (st : scan) (item : candidate) :
  KStr (query item) ∈ seen_phrases (self st) -> run_item E st item = st.
Proof.
  intros Hin. by destruct (run_item_cases E st item) as [[_ ?]|[(? & _)|(? & _)]].
Qed.

Lemma run_loop_cons (E : env) (st : scan) (item : candidate) (cs : list candidate) :
  run_loop E st (item :: cs) = run_loop E (run_item E st item) cs.
Proof. done. Qed.

Lemma run_loop_app (E : env) (st : scan) (cs1 cs2 : list candidate) :
  run_loop E st (cs1 ++ cs2) = run_loop E (run_loop E st cs1) cs2.
Proof. apply fold_left_app. Qed.

Lemma loop_facts_nil (st : scan) : loop_facts [] st st [].
Proof.
  split; simpl; rewrite ?app_nil_r, ?Nat.add_0_r; try done.
  - by rewrite (left_id_L ∅ (∪)).
  - constructor.
  - intros q Hq. inversion Hq.
  - intros c Hc. inversion Hc.
  - intros q Hq. inversion Hq.
  - intros q Hq. inversion Hq.
Qed.

(** A candidate that is already in the store changes nothing. *)
Lemma loop_facts_skip (c : candidate) (cs : list candidate) (st st' : scan) (Δ : list event) :
  KStr (query c) ∈ seen_phrases (self st) ->
  loop_facts cs st st' Δ -> loop_facts (c :: cs) st st' Δ.
Proof.
  intros Hin [].
  split; try done.
  - intros q Hq. destruct (lf_fresh0 q Hq) as (? & ? & ?).
    repeat split; try done. rewrite fmap_cons. by apply list_elem_of_further.
  - intros c' [->|Hc']%elem_of_cons Hv; [|by apply lf_complete0].
    rewrite lf_seen0. set_solver.
  - intros q Hq. destruct (lf_evaluated0 q Hq) as [? ?].
    split; [done|]. rewrite fmap_cons. by apply list_elem_of_further.
Qed.

(** A candidate the filter rejects is evaluated and leaves the store alone. *)
Lemma loop_facts_reject (c : candidate) (cs : list candidate) (st st' : scan) (Δ : list event) :
  KStr (query c) ∉ seen_phrases (self st) ->
  is_valid_phrase (query c) = false ->
  loop_facts cs {| self := self st; new_trends_found := new_trends_found st;
                   outside := emit (Evaluate (query c)) (outside st) |} st' Δ ->
  loop_facts (c :: cs) st st' (Evaluate (query c) :: Δ).
Proof.
  intros Hnew Hv []. simpl in *.
  split; simpl; try done.
  - by rewrite lf_trace0, <- app_assoc.
  - intros q Hq. destruct (lf_fresh0 q Hq) as (? & ? & ?).
    repeat split; try done. by apply list_elem_of_further.
  - intros c' [->|Hc']%elem_of_cons Hv'; [congruence | by apply lf_complete0].
  - intros q [->|Hq]%elem_of_cons.
    + split; [done | by apply list_elem_of_here].
    + destruct (lf_evaluated0 q Hq) as [? ?]. split; [done | by apply list_elem_of_further].
  - intros q [->|Hq]%elem_of_cons Hv'; [|by apply lf_rejected0].
    rewrite lf_seen0. intros [Hq|Hq]%elem_of_union; [|done].
    apply elem_of_list_to_set, list_elem_of_fmap in Hq as (q' & [= <-] & Hq').
    destruct (lf_fresh0 _ Hq') as (_ & ? & _). congruence.
Qed.

(** A new candidate the filter accepts is alerted once and marked seen. *)
Lemma loop_facts_alert (c : candidate) (cs : list candidate) (st st' : scan)
    (url text : string) (lvl : level) (msg : string) (Δ : list event) :
  KStr (query c) ∉ seen_phrases (self st) ->
  is_valid_phrase (query c) = true ->
  loop_facts cs
    {| self := mark_seen (query c) (self st);
       new_trends_found := S (new_trends_found st);
       outside := {| disk := disk (outside st);
                     alerts := S (alerts (outside st));
                     trace := trace (outside st) ++
                       [Evaluate (query c); Alert (query c) (value c);
                        Post url (channel_id (self st)) text "HTML"; Log lvl msg] |} |}
    st' Δ ->
  loop_facts (c :: cs) st st'
    (Evaluate (query c) :: Alert (query c) (value c)
     :: Post url (channel_id (self st)) text "HTML" :: Log lvl msg :: Δ).
Proof.
  intros Hnew Hv []. simpl in *.
  assert (query c ∉ alerted Δ) as Hnot.
  { intros Hq. destruct (lf_fresh0 _ Hq) as (Hq' & _). apply Hq'. set_solver. }
  split; simpl; try done.
  - by rewrite lf_trace0, <- app_assoc.
  - lia.
  - rewrite lf_seen0. set_solver.
  - lia.
  - by constructor.
  - intros q [->|Hq]%elem_of_cons.
    + repeat split; [done | done | by apply list_elem_of_here].
    + destruct (lf_fresh0 q Hq) as (Hq' & ? & ?).
      repeat split; [set_solver | done | by apply list_elem_of_further].
  - intros c' [->|Hc']%elem_of_cons Hv'; [|by apply lf_complete0].
    rewrite lf_seen0. set_solver.
  - intros q [->|Hq]%elem_of_cons.
    + split; [done | by apply list_elem_of_here].
    + destruct (lf_evaluated0 q Hq) as [Hq' ?].
      split; [set_solver | by apply list_elem_of_further].
  - intros q [->|Hq]%elem_of_cons Hv'; [congruence | by apply lf_rejected0].
  - by rewrite lf_posted0.
Qed.

(** The loop of [run], summarised. *)
Lemma run_loop_facts (E : env) (cs : list candidate) (st : scan) :
  exists Δ, loop_facts cs st (run_loop E st cs) Δ.
Proof.
  revert st. induction cs as [|c cs IH]; intros st.
  - exists []. apply loop_facts_nil.
  - rewrite run_loop_cons.
    destruct (run_item_cases E st c)
      as [[Hin ->]|[(Hnew & Hv & ->)|(Hnew & Hv & url & text & lvl & msg & ->)]].
    + destruct (IH st) as [Δ H]. exists Δ. by apply loop_facts_skip.
    + edestruct IH as [Δ H]. eexists. apply loop_facts_reject; eauto.
    + edestruct IH as [Δ H]. eexists. apply loop_facts_alert; eauto.
Qed.

Lemma logs_silent (t : list event) :
  forallb is_log t = true ->
  alerted t = [] /\ evaluated t = [] /\ save_calls t = [] /\ posted t = [].
Proof.
  induction t as [|[] t IH]; simpl; try done.
Qed.

(** The fetch returns the same list in every world, touches neither the
    disk nor the alert counter, and only logs. *)
Lemma fetch_rising_queries_spec (E : env) (w : world) :
  exists logs,
    fetch_rising_queries E w
    = (potential_trends E,
       {| disk := disk w; alerts := alerts w; trace := trace w ++ logs |})
    /\ forallb is_log logs = true.
Proof.
  unfold potential_trends, fetch_rising_queries, emit.
  destruct (trends E) as [msg| |[[|c cs]|]]; simpl; try (eexists; split; [reflexivity|done]).
  exists []. rewrite app_nil_r. by destruct w.
Qed.

(** [run] is the loop, started with a zero counter after the fetch, followed
    by the decision to persist. *)
Lemma run_unfold (E : env) (m : TrendMonitor) (w : world) :
  exists logs,
    forallb is_log logs = true
    /\ run E m w
       = run_finish E
           (run_loop E
              {| self := m; new_trends_found := 0;
                 outside := {| disk := disk w; alerts := alerts w;
                               trace := trace w ++ logs |} |}
              (potential_trends E)).
Proof.
  unfold run.
  destruct (fetch_rising_queries_spec E (emit (Log INFO "Starting trend scan...") w))
    as (logs & -> & Hlogs).
  exists (Log INFO "Starting trend scan..." :: logs). split; [done|].
  simpl. by rewrite <- app_assoc.
Qed.

(** After the loop: nothing new, nothing written. *)
Lemma run_finish_idle (E : env) (st : scan) :
  new_trends_found st = 0%nat ->
  run_finish E st
  = (self st, emit (Log INFO "Scan complete. No new valid trends found.") (outside st)).
Proof. intros H. unfold run_finish. by rewrite H. Qed.

(** After the loop: something new, one save. *)
Lemma run_finish_save (E : env) (st : scan) :
  (0 < new_trends_found st)%nat ->
  run_finish E st
  = (self st,
     emit (Log INFO ("Scan complete. " ++ pretty (new_trends_found st) ++ " new alerts sent."))
       (_save_seen_phrases E (seen_phrases (self st)) (outside st))).
Proof.
  intros H. unfold run_finish.
  by replace (0 <? new_trends_found st)%nat with true by (symmetry; by apply Nat.ltb_lt).
Qed.

(** A save is recorded once, possibly followed by an error record. *)
Lemma save_trace (E : env) (s : gset pykey) (w : world) :
  exists logs,
    trace (_save_seen_phrases E s w) = (trace w ++ Save (set_order E s) :: logs)%list
    /\ forallb is_log logs = true
    /\ alerts (_save_seen_phrases E s w) = alerts w.
Proof.
  unfold _save_seen_phrases. destruct (write E) as [|msg left_behind]; simpl.
  - by exists [].
  - eexists [_]. by rewrite <- app_assoc.
Qed.

Lemma save_disk (E : env) (s : gset pykey) (w : world) :
  disk (_save_seen_phrases E s w) = saved E s.
Proof. unfold _save_seen_phrases, saved. by destruct (write E). Qed.

(** One scan, summarised. *)
Lemma run_spec (E : env) (m : TrendMonitor) (w : world) :
  exists A V, run_facts E m w (fst (run E m w)) (snd (run E m w)) A V.
Proof.
  destruct (run_unfold E m w) as (logs & Hlogs & ->).
  destruct (logs_silent logs Hlogs) as (La & Le & Ld & Lp).
  match goal with |- context [run_loop E ?st0 ?cs] =>
    destruct (run_loop_facts E cs st0) as [Δ []]; set (st := run_loop E st0 cs) in * end.
  simpl in *. exists (alerted Δ), (evaluated Δ).
  destruct (alerted Δ) as [|q A] eqn:HA.
  - rewrite run_finish_idle by done. simpl.
    split; simpl; rewrite ?lf_trace0, ?alerted_app, ?evaluated_app, ?posted_app, ?save_calls_app,
      ?La, ?Le, ?Ld, ?Lp, ?HA, ?lf_saves0, ?app_nil_r; simpl in *; try done.
    + rewrite !length_app. lia.
    + intros q Hq. by apply lf_evaluated0.
  - rewrite run_finish_save by (rewrite lf_count0; simpl; lia). simpl.
    destruct (save_trace E (seen_phrases (self st)) (outside st)) as (slogs & Hst & Hslogs & _).
    destruct (logs_silent slogs Hslogs) as (Sa & Se & Sd & Sp).
    split; simpl; rewrite ?Hst, ?lf_trace0, ?save_disk; try done;
      repeat rewrite ?alerted_app, ?evaluated_app, ?posted_app, ?save_calls_app; simpl;
      rewrite ?alerted_app, ?evaluated_app, ?posted_app, ?save_calls_app,
        ?La, ?Le, ?Ld, ?Lp, ?Sa, ?Se, ?Sd, ?Sp, ?HA, ?lf_saves0, ?app_nil_r; simpl; try done.
    + rewrite !length_app, lf_posted0. simpl. lia.
    + intros q' Hq'. by apply lf_evaluated0.
Qed.

End with_python.

End ScanFacts.

Module ProcessFacts.
Import StoreFacts ScanFacts.

Section with_python.
Context `{PY : Str.Python}.

(** The only exceptions that leave [_load_seen_phrases]. *)
Lemma load_raises (w w' : world) (e : exn) :
  _load_seen_phrases w = (Raise e, w') ->
  w' = w /\ exists msg, e = TypeError msg \/ e = UnicodeDecodeError msg.
Proof.
  unfold _load_seen_phrases.
  destruct (disk w) as [|msg|msg|msg|data]; simpl; try done.
  - intros [= <- <-]. eauto.
  - unfold py_set. destruct data as [| | |items|]; try done.
    + intros [= <- <-]; eauto.
    + intros [= <- <-]; eauto.
    + destruct (mapM key_of_json items); [done|]. intros [= <- <-]; eauto.
Qed.

(** A process either reaches the scan, with the store it loaded, and ends
    with status 0, or stops before the scan with a non-zero status, having
    alerted nothing and left the disk alone. *)
Lemma main_cases (E : env) (w w' : world) (code : Z) :
  main E w = (code, w') ->
  (exists (m : TrendMonitor) (w0 : world),
      _load_seen_phrases w = (Ok (seen_phrases m), w0)
      /\ code = 0 /\ w' = snd (run E m w0))
  \/ (code <> 0 /\ alerted (trace w') = alerted (trace w) /\ disk w' = disk w).
Proof.
  unfold main, __init__.
  destruct (negb (truthy (getenv_token E)) || negb (truthy (getenv_channel E))).
  { intros [= <- <-]. right. simpl. by rewrite alerted_app, app_nil_r. }
  destruct (trendreq E) as [msg|].
  { intros [= <- <-]. right. simpl. by rewrite alerted_app, app_nil_r. }
  destruct (_load_seen_phrases w) as [[seen|e] w0] eqn:Hload.
  - intros [= <- <-]. left. by eexists {| seen_phrases := seen |}, w0.
  - apply load_raises in Hload as [-> (msg & [->| ->])];
      intros [= <- <-]; right; simpl; by rewrite alerted_app, app_nil_r.
Qed.

(** With credentials, a reachable trends service and a loadable store the
    process reaches the scan. *)
Lemma main_runs (E : env) (w w0 : world) (seen : gset pykey) :
  truthy (getenv_token E) = true -> truthy (getenv_channel E) = true ->
  trendreq E = None ->
  _load_seen_phrases w = (Ok seen, w0) ->
  exists m, seen_phrases m = seen /\ main E w = (0, snd (run E m w0)).
Proof.
  intros Ht Hc Hr Hl. unfold main, __init__. rewrite Ht, Hc, Hr, Hl. simpl.
  by eexists {| seen_phrases := seen |}.
Qed.

End with_python.

End ProcessFacts.

Module AlertFacts.
Import Str StrFacts.

Section with_python.
Context `{PY : Str.Python}.

Lemma title_from_app (prev : bool) (s t : string) :
  title_from prev (s ++ t) = title_from prev s ++ title_from (ends_cased prev s) t.
Proof. revert prev. induction s as [|c s IH]; intros prev; simpl; [done | by rewrite IH]. Qed.

Lemma title_from_length (prev : bool) (s : string) :
  String.length (title_from prev s) = String.length s.
Proof. revert prev. induction s as [|c s IH]; intros prev; simpl; [done | by rewrite IH]. Qed.

Lemma pretty_N_char_uncased (x : N) : is_cased (pretty_N_char x) = false.
Proof. unfold pretty_N_char. by repeat case_match. Qed.

Lemma pretty_N_go_head (x : N) (s : string) :
  head_uncased s = true -> head_uncased (pretty_N_go x s) = true.
Proof.
  revert s. induction (N.lt_wf_0 x) as [x _ IH]; intros s Hs.
  destruct (decide (x = 0)%N) as [->|Hx]; [done|].
  rewrite pretty_N_go_step by lia. apply IH; [apply N.div_lt; lia|].
  simpl. by rewrite pretty_N_char_uncased.
Qed.

Lemma pretty_N_head (x : N) : head_uncased (pretty x) = true.
Proof.
  unfold pretty, pretty_N. destruct (decide (x = 0)%N) as [->|Hx]; [done|].
  rewrite pretty_N_go_step by lia. apply pretty_N_go_head.
  simpl. by rewrite pretty_N_char_uncased.
Qed.

(** A decimal numeral starts with a digit or a minus sign. *)
Lemma pretty_Z_head (n : Z) : head_uncased (pretty n) = true.
Proof.
  destruct n as [|p|p]; [done| |done]. apply (pretty_N_head (Npos p)).
Qed.

Lemma lower_head_uncased (s : string) :
  head_uncased s = true -> lower_ascii s <> "breakout".
Proof.
  destruct s as [|c s]; [done|]. simpl. intros Hc [= Hb _].
  unfold lower_char, is_cased in *. apply negb_true_iff, orb_false_iff in Hc as [Hu Hl].
  rewrite Hu in Hb. subst c. done.
Qed.

Lemma pretty_N_char_ascii (x : N) : (nat_of_ascii (pretty_N_char x) <? 128)%nat = true.
Proof. unfold pretty_N_char. by repeat case_match. Qed.

Lemma pretty_N_go_ascii (x : N) (s : string) :
  is_ascii s = true -> is_ascii (pretty_N_go x s) = true.
Proof.
  revert s. induction (N.lt_wf_0 x) as [x _ IH]; intros s Hs.
  destruct (decide (x = 0)%N) as [->|Hx]; [done|].
  rewrite pretty_N_go_step by lia. apply IH; [apply N.div_lt; lia|].
  simpl. by rewrite pretty_N_char_ascii.
Qed.

(** A decimal numeral is ASCII text. *)
Lemma pretty_Z_ascii (n : Z) : is_ascii (pretty n) = true.
Proof.
  assert (forall x : N, is_ascii (pretty x) = true) as HN.
  { intros x. unfold pretty, pretty_N. destruct (decide (x = 0)%N); [done|].
    by apply pretty_N_go_ascii. }
  destruct n as [|p|p]; [done|apply (HN (Npos p))|].
  change (is_ascii (String "-" (pretty (Npos p))) = true). simpl. apply (HN (Npos p)).
Qed.

(** Lower-casing a decimal numeral never gives the breakout marker. *)
Lemma lower_pretty (n : Z) : ascii_faithful -> lower (pretty n) <> "breakout".
Proof.
  intros [Hl _]. rewrite (Hl _ (pretty_Z_ascii n)).
  apply lower_head_uncased, pretty_Z_head.
Qed.

End with_python.

End AlertFacts.

Module OutcomeFacts.
Import ScanFacts.

Section with_python.
Context `{PY : Str.Python}.

Lemma effects_app (t1 t2 : list event) : effects (t1 ++ t2) = (effects t1 ++ effects t2)%list.
Proof. apply filter_app. Qed.

Lemma effects_logs (logs : list event) : forallb is_log logs = true -> effects logs = [].
Proof.
  induction logs as [|[] logs IH]; simpl; done.
Qed.

Lemma alerted_effects (t : list event) : alerted (effects t) = alerted t.
Proof.
  unfold effects. induction t as [|e t IH]; [done|].
  rewrite filter_cons. destruct e; simpl; try case_decide; simpl; rewrite ?IH; done.
Qed.

Lemma evaluated_effects (t : list event) : evaluated (effects t) = evaluated t.
Proof.
  unfold effects. induction t as [|e t IH]; [done|].
  rewrite filter_cons. destruct e; simpl; try case_decide; simpl; rewrite ?IH; done.
Qed.

Lemma posted_effects (t : list event) : posted (effects t) = posted t.
Proof.
  unfold effects. induction t as [|e t IH]; [done|].
  rewrite filter_cons. destruct e; simpl; try case_decide; simpl; rewrite ?IH; done.
Qed.

(** What the endpoint answers changes the log record of an alert and
    nothing else. *)
Lemma run_item_any_post (E : env) (p : nat -> post_outcome) (st1 st2 : scan) (item : candidate) :
  same_effects st1 st2 ->
  same_effects (run_item E st1 item) (run_item (with_post E p) st2 item).
Proof.
  intros (Hself & Hn & Hd & Ha & Ht). unfold run_item. rewrite <- Hself.
  destruct (decide (KStr (query item) ∈ seen_phrases (self st1))); [done|].
  destruct (is_valid_phrase (query item)).
  - destruct (send_telegram_alert_spec E (self st1) (query item) (value item)
                (emit (Evaluate (query item)) (outside st1))) as (l1 & m1 & ->).
    destruct (send_telegram_alert_spec (with_post E p) (self st1) (query item) (value item)
                (emit (Evaluate (query item)) (outside st2))) as (l2 & m2 & ->).
    repeat split; simpl; try congruence.
    rewrite !effects_app, Ht, Ha. done.
  - repeat split; simpl; try done. by rewrite !effects_app, Ht.
Qed.

Lemma run_loop_any_post (E : env) (p : nat -> post_outcome) (cs : list candidate)
    (st1 st2 : scan) :
  same_effects st1 st2 ->
  same_effects (run_loop E st1 cs) (run_loop (with_post E p) st2 cs).
Proof.
  revert st1 st2. induction cs as [|c cs IH]; intros st1 st2 H; [done|].
  rewrite !run_loop_cons. by apply IH, run_item_any_post.
Qed.

Lemma run_finish_any_post (E : env) (p : nat -> post_outcome) (st1 st2 : scan) :
  same_effects st1 st2 ->
  fst (run_finish E st1) = fst (run_finish (with_post E p) st2)
  /\ disk (snd (run_finish E st1)) = disk (snd (run_finish (with_post E p) st2))
  /\ effects (trace (snd (run_finish E st1)))
     = effects (trace (snd (run_finish (with_post E p) st2))).
Proof.
  intros (Hself & Hn & Hd & Ha & Ht). unfold run_finish. rewrite <- Hn, <- Hself.
  destruct (0 <? new_trends_found st1)%nat; simpl.
  - unfold _save_seen_phrases. simpl. destruct (write E); simpl;
      rewrite ?effects_app, Ht; done.
  - by rewrite !effects_app, Ht.
Qed.

(** A run under any other endpoint behaviour ends with the same store, the
    same disk and the same effects. *)
Lemma run_any_post (E : env) (p : nat -> post_outcome) (m : TrendMonitor) (w : world) :
  fst (run E m w) = fst (run (with_post E p) m w)
  /\ disk (snd (run E m w)) = disk (snd (run (with_post E p) m w))
  /\ effects (trace (snd (run E m w))) = effects (trace (snd (run (with_post E p) m w))).
Proof.
  unfold run.
  assert (fetch_rising_queries (with_post E p) (emit (Log INFO "Starting trend scan...") w)
          = fetch_rising_queries E (emit (Log INFO "Starting trend scan...") w)) as -> by done.
  destruct (fetch_rising_queries E _) as [cs w0].
  apply run_finish_any_post, run_loop_any_post. by repeat split.
Qed.

End with_python.

End OutcomeFacts.

Import Str StrFacts FilterFacts StoreFacts ScanFacts ProcessFacts AlertFacts OutcomeFacts.

Lemma ascii_python_faithful : @ascii_faithful ascii_python.
Proof. by split. Qed.

Section Claim1.
Context `{PY : Python}.

(** On ASCII text every interpreter gives the verdict of the ASCII one. *)
Lemma is_valid_phrase_ascii (phrase : string) :
  ascii_faithful -> is_ascii phrase = true ->
  is_valid_phrase phrase = @is_valid_phrase ascii_python phrase.
Proof. intros [Hl _] Hp. unfold is_valid_phrase. by rewrite (Hl _ Hp). Qed.

(** C1.  A phrase whose lower-case form ([str.lower], whatever the Unicode
    database makes of it) contains "shirt" and no entry of the colour,
    material or brand sets is accepted; a phrase whose lower-case form lacks
    "shirt" is rejected whatever else it contains; a phrase whose lower-case
    form contains "shirt" and some exclusion entry is rejected.  Where
    lower-casing treats ASCII text as it does in Python: an ASCII phrase with
    "shirt" in which an entry occurs in any letter case is rejected, the
    empty phrase is rejected, "Black Shirt" is rejected and
    "Graphic Tee Shirt" is accepted. *)
Theorem is_valid_phrase_spec (phrase : string) :
  (occurs_in "shirt" (lower phrase) ->
   (forall item, item ∈ exclusion_entries -> ~ occurs_in item (lower phrase)) ->
   is_valid_phrase phrase = true)
  /\ (~ occurs_in "shirt" (lower phrase) -> is_valid_phrase phrase = false)
  /\ (occurs_in "shirt" (lower phrase) ->
      (exists item, item ∈ exclusion_entries /\ occurs_in item (lower phrase)) ->
      is_valid_phrase phrase = false)
  /\ (ascii_faithful ->
      (is_ascii phrase = true ->
       occurs_in "shirt" (lower phrase) ->
       (exists item, item ∈ exclusion_entries /\ occurs_nocase item phrase) ->
       is_valid_phrase phrase = false)
      /\ is_valid_phrase "" = false
      /\ is_valid_phrase "Black Shirt" = false
      /\ is_valid_phrase "Graphic Tee Shirt" = true).
Proof.
  split; [|split; [|split]].
  - intros Hk Hno. by apply is_valid_phrase_iff.
  - intros Hk. apply not_true_is_false. rewrite is_valid_phrase_iff. tauto.
  - intros _ (item & Hin & Hocc). apply not_true_is_false.
    rewrite is_valid_phrase_iff. intros [_ Hno]. by apply (Hno item Hin).
  - intros HF. split; [|by rewrite !is_valid_phrase_ascii].
    intros Hp _ (item & Hin & Hocc). apply not_true_is_false.
    rewrite is_valid_phrase_iff. intros [_ Hno]. apply (Hno item Hin).
    destruct HF as [Hl _]. rewrite (Hl _ Hp).
    apply occurs_nocase_spec in Hocc.
    pose proof exclusion_entries_lower as He. rewrite List.Forall_forall in He.
    apply list_elem_of_In in Hin. destruct (He item Hin) as [He' _].
    by rewrite He' in Hocc.
Qed.

End Claim1.

Lemma is_valid_phrase_spec_witness :
  is_valid_phrase "Oversized Shirt" = true
  /\ is_valid_phrase "Red Denim Trousers" = false
  /\ is_valid_phrase "Red Shirt" = false
  /\ is_valid_phrase "RedShirt" = false.
Proof.
  split; [|split; [|split]].
  - apply (proj1 (is_valid_phrase_spec "Oversized Shirt")).
    + exists "oversized ", "". reflexivity.
    + intros item Hin. apply contains_false.
      apply list_elem_of_In in Hin. simpl in Hin.
      repeat (destruct Hin as [<-|Hin]; [reflexivity|]). destruct Hin.
  - apply (proj1 (proj2 (is_valid_phrase_spec "Red Denim Trousers"))).
    apply contains_false. reflexivity.
  - apply (proj1 (proj2 (proj2 (is_valid_phrase_spec "Red Shirt")))).
    + exists "red ", "". reflexivity.
    + exists "red". split; [apply list_elem_of_In; simpl; tauto|].
      by exists "", " shirt".
  - apply (proj1 (proj2 (proj2 (proj2 (is_valid_phrase_spec "RedShirt")))
                    ascii_python_faithful)).
    + reflexivity.
    + exists "red", "". reflexivity.
    + exists "red". split; [apply list_elem_of_In; simpl; tauto|].
      exists "Red". split; [by exists "", "Shirt" | reflexivity].
Defined.

Section Claim2.
Context `{PY : Python}.

(** C2.  Two processes scan the same candidate list, the first one's save
    succeeds and the second one starts from the file the first one left.
    The second scan alerts nothing, and every qualifying phrase (accepted by
    the filter and absent from the store the first scan started with) is
    alerted exactly once over the two scans; a phrase the first scan found
    in its store is alerted by neither.  With its credentials and the trends
    service in order the second process does reach its scan. *)
Theorem rescan_alerts_nothing (E1 E2 : env) (d0 : file) (s0 : gset pykey)
    (w1 w2 : world) (code2 : Z) :
  env_ok E1 -> write E1 = Written ->
  potential_trends E2 = potential_trends E1 ->
  fst (_load_seen_phrases (boot d0)) = Ok s0 ->
  main E1 (boot d0) = (0, w1) ->
  main E2 (boot (disk w1)) = (code2, w2) ->
  alerted (trace w2) = []
  /\ (forall c, c ∈ potential_trends E1 ->
        is_valid_phrase (query c) = true -> KStr (query c) ∉ s0 ->
        count_occ string_dec (alerted (trace w1) ++ alerted (trace w2)) (query c) = 1%nat)
  /\ (forall q, KStr q ∈ s0 ->
        count_occ string_dec (alerted (trace w1) ++ alerted (trace w2)) q = 0%nat)
  /\ (truthy (getenv_token E2) = true -> truthy (getenv_channel E2) = true ->
      trendreq E2 = None -> code2 = 0).
Proof.
  intros HE Hw Hcs Hs0 Hmain1 Hmain2.
  apply main_cases in Hmain1 as [(m0 & w0 & Hload0 & _ & ->)|[? _]]; [|done].
  rewrite Hload0 in Hs0. injection Hs0 as Hs0.
  destruct (run_spec E1 m0 w0) as (A1 & V1 & F1).
  set (m1 := fst (run E1 m0 w0)) in *. set (w1 := snd (run E1 m0 w0)) in *.
  pose proof (load_alerted (boot d0)) as Ha0. rewrite Hload0 in Ha0. simpl in Ha0.
  pose proof (load_disk (boot d0)) as Hd0. rewrite Hload0 in Hd0. simpl in Hd0.
  (* the store the second process loads is the one the first ended with *)
  assert (fst (_load_seen_phrases (boot (disk w1))) = Ok (seen_phrases m1)) as Hload1.
  { rewrite (rf_disk _ _ _ _ _ _ _ F1), (rf_seen _ _ _ _ _ _ _ F1).
    destruct A1 as [|q A1].
    - simpl. rewrite (left_id_L ∅ (∪)), Hs0, Hd0.
      replace (Ok s0) with (fst (_load_seen_phrases (boot d0))) by by rewrite Hload0, Hs0.
      by apply load_result_disk.
    - rewrite <- (rf_seen _ _ _ _ _ _ _ F1). unfold saved. rewrite Hw.
      erewrite load_document; [done|done|by apply py_set_dump]. }
  assert (alerted (trace w2) = []) as Hsilent.
  { apply main_cases in Hmain2 as [(m2 & w0' & Hload2 & _ & ->)|(_ & -> & _)]; [|done].
    rewrite Hload2 in Hload1. injection Hload1 as Hseen.
    destruct (run_spec E2 m2 w0') as (A2 & V2 & F2).
    rewrite (rf_alerted _ _ _ _ _ _ _ F2).
    pose proof (load_alerted (boot (disk w1))) as Ha1. rewrite Hload2 in Ha1.
    simpl in Ha1. rewrite Ha1. simpl.
    destruct A2 as [|q A2]; [done|]. exfalso.
    destruct (rf_fresh _ _ _ _ _ _ _ F2 q) as (Hnew & Hv & Hq); [by left|].
    rewrite Hcs in Hq. apply list_elem_of_fmap in Hq as (c & -> & Hc).
    apply Hnew. rewrite Hseen. by apply (rf_complete _ _ _ _ _ _ _ F1). }
  split; [done|]. split; [|split].
  - intros c Hc Hv Hnew. rewrite Hsilent, app_nil_r.
    rewrite (rf_alerted _ _ _ _ _ _ _ F1), Ha0. simpl.
    apply NoDup_count_occ'; [apply NoDup_ListNoDup, (rf_nodup _ _ _ _ _ _ _ F1)|].
    apply list_elem_of_In.
    pose proof (rf_complete _ _ _ _ _ _ _ F1 c Hc Hv) as Hin.
    rewrite (rf_seen _ _ _ _ _ _ _ F1), Hs0 in Hin.
    apply elem_of_union in Hin as [Hin|Hin]; [|done].
    apply elem_of_list_to_set, list_elem_of_fmap in Hin as (q & [= <-] & Hq). done.
  - intros q Hq. rewrite Hsilent, app_nil_r.
    rewrite (rf_alerted _ _ _ _ _ _ _ F1), Ha0. simpl.
    apply count_occ_not_In. intros Hin%list_elem_of_In.
    destruct (rf_fresh _ _ _ _ _ _ _ F1 q Hin) as (Hnew & _). apply Hnew. by rewrite Hs0.
  - intros Ht Hc Hr.
    destruct (_load_seen_phrases (boot (disk w1))) as [r w0'] eqn:Hl. simpl in Hload1. subst r.
    destruct (main_runs E2 _ _ _ Ht Hc Hr Hl) as (m2 & _ & Hm2).
    rewrite Hm2 in Hmain2. by injection Hmain2.
Qed.

End Claim2.

Lemma rescan_alerts_nothing_witness :
  alerted (trace demo_first) = ["Oversized Shirt"] /\ alerted (trace demo_second) = [].
Proof.
  split; [by vm_compute|].
  apply (rescan_alerts_nothing demo_env demo_env Absent ∅ demo_first demo_second 0).
  - intros s. reflexivity.
  - reflexivity.
  - reflexivity.
  - reflexivity.
  - by vm_compute.
  - by vm_compute.
Defined.

(** C3, as stated, fails: the store holds "oversized shirt", the candidate
    "Oversized Shirt" is equal to it up to letter case, and the scan neither
    skips it nor leaves the store alone: it alerts the phrase and adds it. *)
Lemma seen_check_ignores_case_fails :
  KStr "oversized shirt" ∈ seen_phrases (self lowercase_store)
  /\ lower "oversized shirt" = lower (query titlecase_item)
  /\ alerted (trace (outside (run_item demo_env lowercase_store titlecase_item)))
     = ["Oversized Shirt"]
  /\ seen_phrases (self (run_item demo_env lowercase_store titlecase_item))
     = {[ KStr "Oversized Shirt"; KStr "oversized shirt" ]}.
Proof.
  split; [simpl; set_solver|]. split; [reflexivity|]. split; by vm_compute.
Qed.

Section Claim3.
Context `{PY : Python}.

(** C3, amended.  Membership in the store is exact string equality on the
    phrase as the source returned it, without normalisation: the loop body
    skips a candidate, changing nothing, if and only if the store contains
    exactly its phrase. *)
Theorem seen_check_exact (E : env) (st : scan) (item : candidate) :
  run_item E st item = st <-> KStr (query item) ∈ seen_phrases (self st).
Proof.
  split.
  - intros Heq.
    destruct (run_item_cases E st item)
      as [[Hin _]|[(_ & _ & H)|(_ & _ & url & text & lvl & msg & H)]]; [done| |];
      rewrite Heq in H; apply (f_equal (fun s => length (trace (outside s)))) in H;
      simpl in H; rewrite length_app in H; simpl in H; lia.
  - apply skip_when_seen.
Qed.

End Claim3.

Section Claim4.
Context `{PY : Python}.

(** C4, where the code departs from it.  A store file that holds a JSON
    value other than an array of scalars, or bytes that are not text, makes
    [_load_seen_phrases] raise: the exception is neither [JSONDecodeError]
    nor [IOError].  It ends the process with status 1. *)
Theorem load_raises_on_wrong_shape :
  _load_seen_phrases (boot (Document JNull))
  = (Raise (TypeError "'NoneType' object is not iterable"), boot (Document JNull))
  /\ fst (_load_seen_phrases (boot (Document (JArr [JArr [JStr "oversized shirt"]]))))
     = Raise (TypeError "unhashable type: 'list'")
  /\ fst (_load_seen_phrases (boot (Undecodable "invalid start byte")))
     = Raise (UnicodeDecodeError "invalid start byte")
  /\ main demo_env (boot (Document JNull))
     = (1, {| disk := Document JNull; alerts := 0;
              trace := [Log CRITICAL
                          "Unhandled exception: 'NoneType' object is not iterable"] |}).
Proof. repeat split. Qed.

(** The counter of the loop is the number of phrases the loop added. *)
Lemma counter_counts_additions (cs : list candidate) (st st' : scan) (Δ : list event) :
  loop_facts cs st st' Δ ->
  seen_phrases (self st') ∖ seen_phrases (self st) = list_to_set (KStr <$> alerted Δ)
  /\ size (seen_phrases (self st') ∖ seen_phrases (self st)) = length (alerted Δ).
Proof.
  intros [].
  assert (seen_phrases (self st') ∖ seen_phrases (self st)
          = list_to_set (KStr <$> alerted Δ)) as Hdiff.
  { rewrite lf_seen0. apply set_eq. intros k.
    rewrite elem_of_difference, elem_of_union, elem_of_list_to_set, list_elem_of_fmap.
    split; [tauto|]. intros (q & -> & Hq). split; [left; eauto|].
    by destruct (lf_fresh0 q Hq). }
  split; [done|]. rewrite Hdiff, size_list_to_set, length_fmap; [done|].
  apply NoDup_fmap; [|done]. by intros ?? [=].
Qed.

End Claim4.

Section Claim7.
Context `{PY : Python}.

(** C7.  The counter the loop ends with is the number of phrases added to
    the in-memory set, so it is positive exactly when the set grew; the save
    is invoked exactly when the counter is positive; and a run that adds
    nothing writes nothing.  The last conjunct reads the same on [run]:
    either one save and a strictly larger set, or no save, the same set and
    the same disk. *)
Theorem save_iff_store_grew (E : env) (m : TrendMonitor) (w : world) :
  (forall (cs : list candidate) (w0 : world),
      let st := run_loop E {| self := m; new_trends_found := 0; outside := w0 |} cs in
      let w' := snd (run_finish E st) in
      new_trends_found st = size (seen_phrases (self st) ∖ seen_phrases m)
      /\ ((0 < new_trends_found st)%nat <-> seen_phrases m ⊂ seen_phrases (self st))
      /\ save_calls (trace w')
         = (save_calls (trace w0)
            ++ if (0 <? new_trends_found st)%nat
               then [set_order E (seen_phrases (self st))] else [])%list
      /\ (new_trends_found st = 0%nat -> disk w' = disk w0))
  /\ ((save_calls (trace (snd (run E m w)))
       = (save_calls (trace w) ++ [set_order E (seen_phrases (fst (run E m w)))])%list
       /\ seen_phrases m ⊂ seen_phrases (fst (run E m w)))
      \/ (save_calls (trace (snd (run E m w))) = save_calls (trace w)
          /\ seen_phrases (fst (run E m w)) = seen_phrases m
          /\ disk (snd (run E m w)) = disk w)).
Proof.
  split.
  - intros cs w0 st w'.
    destruct (run_loop_facts E cs {| self := m; new_trends_found := 0; outside := w0 |})
      as [Δ F]. fold st in F.
    destruct (counter_counts_additions _ _ _ _ F) as [Hdiff Hsize]. destruct F. simpl in *.
    split; [by rewrite Hsize|]. split; [|split].
    + rewrite lf_count0. simpl. split.
      * intros Hpos. split; [rewrite lf_seen0; set_solver|].
        intros Hsub. destruct (alerted Δ) as [|q A]; [simpl in Hpos; lia|].
        destruct (lf_fresh0 q) as [Hq _]; [by left|]. apply Hq, Hsub.
        rewrite lf_seen0. set_solver.
      * intros [_ Hnsub]. destruct (alerted Δ) as [|q A]; [|simpl; lia].
        exfalso. apply Hnsub. rewrite lf_seen0. set_solver.
    + subst w'. destruct (new_trends_found st) as [|n] eqn:Hn.
      * rewrite run_finish_idle by done. simpl.
        by rewrite save_calls_app, lf_trace0, save_calls_app, lf_saves0, !app_nil_r.
      * rewrite run_finish_save by lia. simpl.
        destruct (save_trace E (seen_phrases (self st)) (outside st)) as (logs & -> & Hlogs & _).
        destruct (logs_silent _ Hlogs) as (_ & _ & Hd & _).
        rewrite save_calls_app, save_calls_app, lf_trace0, save_calls_app, lf_saves0. simpl.
        by rewrite Hd, !app_nil_r.
    + intros Hn. subst w'. by rewrite run_finish_idle.
  - destruct (run_spec E m w) as (A & V & []).
    destruct A as [|q A]; [right|left].
    + rewrite rf_saves0, rf_seen0, rf_disk0, app_nil_r. simpl.
      by rewrite (left_id_L ∅ (∪)).
    + split; [done|]. split; [rewrite rf_seen0; set_solver|].
      intros Hsub. destruct (rf_fresh0 q) as [Hq _]; [by left|]. apply Hq, Hsub.
      rewrite rf_seen0. set_solver.
Qed.

End Claim7.

Section Claim8.
Context `{PY : Python}.

(** C8.  A store of N distinct phrases that is saved (the write succeeding)
    and then loaded comes back as the same set, of size N, for every N; for
    N = 0 this is also what a missing file loads as. *)
Theorem store_round_trip (E : env) (w : world) (phrases : list string) :
  env_ok E -> write E = Written -> NoDup phrases ->
  let store : gset pykey := list_to_set (KStr <$> phrases) in
  fst (_load_seen_phrases (_save_seen_phrases E store w)) = Ok store
  /\ size store = length phrases
  /\ (forall q, KStr q ∈ store <-> q ∈ phrases)
  /\ fst (_load_seen_phrases (boot Absent)) = Ok (∅ : gset pykey).
Proof.
  intros HE Hw Hnd store. repeat split.
  - by rewrite save_then_load.
  - unfold store. rewrite size_list_to_set, length_fmap; [done|].
    apply NoDup_fmap; [|done]. by intros ?? [=].
  - unfold store. rewrite elem_of_list_to_set, list_elem_of_fmap.
    by intros (q' & [= <-] & Hq).
  - intros Hq. unfold store. rewrite elem_of_list_to_set. by apply list_elem_of_fmap_2.
Qed.

End Claim8.

Lemma store_round_trip_witness :
  fst (_load_seen_phrases
         (_save_seen_phrases demo_env
            (list_to_set (KStr <$> ["Oversized Shirt"; "Graphic Tee Shirt"])) (boot Absent)))
  = Ok (list_to_set (KStr <$> ["Oversized Shirt"; "Graphic Tee Shirt"])).
Proof.
  apply (store_round_trip demo_env (boot Absent) ["Oversized Shirt"; "Graphic Tee Shirt"]).
  - intros s. reflexivity.
  - reflexivity.
  - apply (bool_decide_unpack _). by vm_compute.
Defined.

Section Claim6.
Context `{PY : Python}.

(** C6.  A candidate whose phrase is in the store leaves the loop body
    without any effect: no filter evaluation, no alert.  Over a whole run,
    no phrase of the starting store is evaluated or alerted, a phrase the
    filter rejects is not added, and every member the store gained is a
    phrase alerted in this run. *)
Theorem store_records_alerted_only (E : env) (m : TrendMonitor) (w : world) :
  (forall (st : scan) (item : candidate),
      KStr (query item) ∈ seen_phrases (self st) -> run_item E st item = st)
  /\ exists A V : list string,
       alerted (trace (snd (run E m w))) = (alerted (trace w) ++ A)%list
       /\ evaluated (trace (snd (run E m w))) = (evaluated (trace w) ++ V)%list
       /\ (forall q, q ∈ V -> KStr q ∉ seen_phrases m)
       /\ (forall q, q ∈ A -> KStr q ∉ seen_phrases m)
       /\ (forall q, q ∈ V -> is_valid_phrase q = false ->
             KStr q ∉ seen_phrases (fst (run E m w)))
       /\ (forall c, c ∈ potential_trends E -> is_valid_phrase (query c) = false ->
             KStr (query c) ∈ seen_phrases (fst (run E m w)) ->
             KStr (query c) ∈ seen_phrases m)
       /\ (forall k, k ∈ seen_phrases (fst (run E m w)) -> k ∉ seen_phrases m ->
             exists q, k = KStr q /\ q ∈ A).
Proof.
  split; [intros st item; apply skip_when_seen|].
  destruct (run_spec E m w) as (A & V & []).
  exists A, V. repeat split; try done.
  - intros q Hq. by destruct (rf_fresh0 q Hq).
  - intros c Hc Hv. rewrite rf_seen0.
    intros [Hin|Hin]%elem_of_union; [|done].
    apply elem_of_list_to_set, list_elem_of_fmap in Hin as (q & [= <-] & Hq).
    destruct (rf_fresh0 _ Hq) as (_ & ? & _). congruence.
  - intros k. rewrite rf_seen0.
    intros [Hin|Hin]%elem_of_union Hnew; [|done].
    apply elem_of_list_to_set, list_elem_of_fmap in Hin as (q & -> & Hq). eauto.
Qed.

End Claim6.

Lemma store_records_alerted_only_witness :
  run_item demo_env lowercase_store {| query := "oversized shirt"; value := GInt 300 |}
  = lowercase_store.
Proof.
  apply (proj1 (store_records_alerted_only demo_env (self lowercase_store)
                  (outside lowercase_store))).
  simpl. set_solver.
Defined.

Section Claim10.
Context `{PY : Python}.

(** C10.  In one pass over any candidate list the alerted phrases are
    pairwise distinct, the counter ends as their number, which is the number
    of members the store gained, a qualifying phrase is alerted exactly once
    however often it is listed, and a later occurrence of a qualifying
    phrase meets the seen-check and changes nothing. *)
Theorem repeated_phrase_alerted_once (E : env) (st : scan) (cs : list candidate) :
  (exists Δ : list event,
      trace (outside (run_loop E st cs)) = (trace (outside st) ++ Δ)%list
      /\ NoDup (alerted Δ)
      /\ new_trends_found (run_loop E st cs)
         = (new_trends_found st + length (alerted Δ))%nat
      /\ length (alerted Δ)
         = size (seen_phrases (self (run_loop E st cs)) ∖ seen_phrases (self st))
      /\ (forall c, c ∈ cs -> is_valid_phrase (query c) = true ->
            KStr (query c) ∉ seen_phrases (self st) ->
            count_occ string_dec (alerted Δ) (query c) = 1%nat))
  /\ (forall pre c post, cs = (pre ++ c :: post)%list ->
        query c ∈ (query <$> pre) -> is_valid_phrase (query c) = true ->
        run_item E (run_loop E st pre) c = run_loop E st pre
        /\ run_loop E st cs = run_loop E st (pre ++ post)).
Proof.
  split.
  - destruct (run_loop_facts E cs st) as [Δ F]. exists Δ.
    destruct (counter_counts_additions _ _ _ _ F) as [_ Hsize]. destruct F.
    repeat split; try done.
    intros c Hc Hv Hnew.
    apply NoDup_count_occ'; [by apply NoDup_ListNoDup|]. apply list_elem_of_In.
    pose proof (lf_complete0 c Hc Hv) as Hin. rewrite lf_seen0 in Hin.
    apply elem_of_union in Hin as [Hin|Hin]; [|done].
    by apply elem_of_list_to_set, list_elem_of_fmap in Hin as (q & [= <-] & Hq).
  - intros pre c post -> Hq Hv.
    assert (run_item E (run_loop E st pre) c = run_loop E st pre) as Hskip.
    { apply skip_when_seen.
      destruct (run_loop_facts E pre st) as [Δ []].
      apply list_elem_of_fmap in Hq as (c' & Heq & Hc'). rewrite Heq.
      apply lf_complete0; [done | by rewrite <- Heq]. }
    split; [done|].
    by rewrite !run_loop_app, run_loop_cons, Hskip.
Qed.

End Claim10.

Lemma repeated_phrase_alerted_once_witness :
  run_loop demo_env lowercase_store
    [ {| query := "Graphic Tee Shirt"; value := GInt 120 |};
      {| query := "Red Denim Shirt"; value := GStr "Breakout" |};
      {| query := "Graphic Tee Shirt"; value := GInt 140 |};
      {| query := "Polo Shirt"; value := GInt 90 |} ]
  = run_loop demo_env lowercase_store
      [ {| query := "Graphic Tee Shirt"; value := GInt 120 |};
        {| query := "Red Denim Shirt"; value := GStr "Breakout" |};
        {| query := "Polo Shirt"; value := GInt 90 |} ].
Proof.
  apply (proj2 (repeated_phrase_alerted_once demo_env lowercase_store _)
           [ {| query := "Graphic Tee Shirt"; value := GInt 120 |};
             {| query := "Red Denim Shirt"; value := GStr "Breakout" |} ]
           {| query := "Graphic Tee Shirt"; value := GInt 140 |}
           [ {| query := "Polo Shirt"; value := GInt 90 |} ]).
  - reflexivity.
  - simpl. set_solver.
  - reflexivity.
Defined.

Section Claim5.
Context `{PY : Python}.

(** C5.  Whatever the Telegram endpoint answers (a non-200 status, a
    connection error), a phrase that passes the seen-check and the filter is
    in the store when the run ends, the loop goes on to every other
    candidate, and with a successful write the persisted store is the
    in-memory one, so it holds the phrase.  The store, the disk and the
    alerts and evaluations of the run are the same under every behaviour of
    the endpoint. *)
Theorem failed_dispatch_still_marked (E : env) (m : TrendMonitor) (w : world) (c : candidate) :
  env_ok E -> write E = Written ->
  c ∈ potential_trends E -> is_valid_phrase (query c) = true ->
  KStr (query c) ∉ seen_phrases m ->
  KStr (query c) ∈ seen_phrases (fst (run E m w))
  /\ fst (_load_seen_phrases (snd (run E m w))) = Ok (seen_phrases (fst (run E m w)))
  /\ (forall c', c' ∈ potential_trends E -> is_valid_phrase (query c') = true ->
        KStr (query c') ∈ seen_phrases (fst (run E m w)))
  /\ (forall p : nat -> post_outcome,
        seen_phrases (fst (run (with_post E p) m w)) = seen_phrases (fst (run E m w))
        /\ disk (snd (run (with_post E p) m w)) = disk (snd (run E m w))
        /\ alerted (trace (snd (run (with_post E p) m w)))
           = alerted (trace (snd (run E m w)))
        /\ evaluated (trace (snd (run (with_post E p) m w)))
           = evaluated (trace (snd (run E m w)))).
Proof.
  intros HE Hw Hc Hv Hnew.
  destruct (run_spec E m w) as (A & V & F).
  pose proof (rf_complete _ _ _ _ _ _ _ F c Hc Hv) as Hin.
  split; [done|]. split; [|split].
  - assert (A <> []) as HA.
    { intros ->. rewrite (rf_seen _ _ _ _ _ _ _ F) in Hin. set_solver. }
    erewrite load_document; [done| |by apply py_set_dump].
    rewrite (rf_disk _ _ _ _ _ _ _ F). destruct A; [done|]. unfold saved. by rewrite Hw.
  - apply (rf_complete _ _ _ _ _ _ _ F).
  - intros p. destruct (run_any_post E p m w) as (H1 & H2 & H3).
    rewrite <- H1, <- H2. repeat split.
    + by rewrite <- alerted_effects, <- H3, alerted_effects.
    + by rewrite <- evaluated_effects, <- H3, evaluated_effects.
Qed.

End Claim5.

Lemma failed_dispatch_still_marked_witness :
  KStr "Oversized Shirt" ∈ seen_phrases (fst (run failing_env fresh_monitor (boot Absent)))
  /\ fst (_load_seen_phrases (snd (run failing_env fresh_monitor (boot Absent))))
     = Ok (seen_phrases (fst (run failing_env fresh_monitor (boot Absent)))).
Proof.
  destruct (failed_dispatch_still_marked failing_env fresh_monitor (boot Absent)
              {| query := "Oversized Shirt"; value := GStr "250" |}) as (H1 & H2 & _).
  - intros s. reflexivity.
  - reflexivity.
  - apply list_elem_of_here.
  - reflexivity.
  - simpl. apply not_elem_of_empty.
  - split; [exact H1 | exact H2].
Defined.

Section Claim9.
Context `{PY : Python}.

(** C9.  One call of [send_telegram_alert] posts exactly one message.  Its
    text holds the title-cased phrase ([phrase.title()]), the growth and the
    timestamp.  A growth whose lower-case form is "breakout" is rendered as
    the flag "BREAKOUT", without sign or percent; any other growth V is
    rendered "+V%".  Where the case operations treat ASCII text as they do
    in Python: a number is always rendered "+V%" (so is the text "250"), and
    the title of an ASCII phrase has each letter that starts a run of
    letters upper-cased and every other letter lower-cased. *)
Theorem alert_message_format (E : env) (m : TrendMonitor) (phrase : string)
    (g : growth) (w : world) :
  posted (trace (send_telegram_alert E m phrase g w))
  = (posted (trace w) ++ [message phrase g (now E (alerts w))])%list
  /\ (forall timestamp : string,
        message phrase g timestamp
        = "ðŸ‘• <b>NEW TREND DETECTED</b>" ++ nl ++ nl
          ++ "Phrase: <b>" ++ title phrase ++ "</b>" ++ nl
          ++ "Growth: " ++ growth_str g ++ nl
          ++ "Status: RISING" ++ nl
          ++ "Time: " ++ timestamp)
  /\ (forall s : string, lower s <> "breakout" -> growth_str (GStr s) = "+" ++ s ++ "%")
  /\ (forall s : string, lower s = "breakout" -> growth_str (GStr s) = "BREAKOUT")
  /\ (ascii_faithful ->
      (forall n : Z, growth_str (GInt n) = "+" ++ pretty n ++ "%")
      /\ growth_str (GStr "250") = "+250%"
      /\ growth_str (GInt 250) = "+250%"
      /\ growth_str (GStr "Breakout") = "BREAKOUT"
      /\ title "oversized shirt" = "Oversized Shirt"
      /\ (is_ascii phrase = true ->
          title phrase = title_ascii phrase
          /\ String.length (title phrase) = String.length phrase
          /\ forall (pre : string) (ch : ascii) (rest : string),
               phrase = pre ++ String ch rest ->
               title phrase
               = title_ascii pre
                 ++ String (if ends_cased false pre then lower_char ch else upper_char ch)
                      (title_from (is_cased ch) rest))).
Proof.
  assert (forall s, lower s <> "breakout" -> growth_str (GStr s) = "+" ++ s ++ "%") as Hplus.
  { intros s Hne. unfold growth_str. simpl. by apply String.eqb_neq in Hne as ->. }
  assert (forall s, lower s = "breakout" -> growth_str (GStr s) = "BREAKOUT") as Hflag.
  { intros s Heq. unfold growth_str. simpl. by apply String.eqb_eq in Heq as ->. }
  split; [|split; [done|split; [done|split; [done|]]]].
  - destruct (send_telegram_alert_spec E m phrase g w) as (lvl & msg & ->).
    simpl. by rewrite posted_app.
  - intros HF. pose proof HF as [Hl Ht].
    assert (forall n : Z, growth_str (GInt n) = "+" ++ pretty n ++ "%") as Hnum.
    { intros n. unfold growth_str. simpl.
      pose proof (lower_pretty n HF) as Hne. by apply String.eqb_neq in Hne as ->. }
    split; [done|]. split; [|split; [apply Hnum|split; [|split]]].
    + apply Hplus. by rewrite Hl.
    + apply Hflag. by rewrite Hl.
    + by rewrite Ht.
    + intros Hp. rewrite (Ht _ Hp). split; [done|]. split.
      * apply title_from_length.
      * intros pre ch rest ->. unfold title_ascii. by rewrite title_from_app.
Qed.

End Claim9.

Lemma alert_message_format_witness :
  title "graphic tee shirt" = "Graphic Tee Shirt"
  /\ growth_str (GStr "1,150") = "+1,150%"
  /\ growth_str (GStr "BreakOut") = "BREAKOUT"
  /\ growth_str (GInt 1150) = "+1150%".
Proof.
  pose proof (alert_message_format demo_env fresh_monitor "graphic tee shirt"
                (GStr "1,150") (boot Absent)) as (_ & _ & Hplus & Hflag & HA).
  destruct (HA ascii_python_faithful) as (Hnum & _ & _ & _ & _ & Ht).
  destruct (Ht eq_refl) as (_ & _ & Hch).
  split; [|split; [|split]].
  - rewrite (Hch "graphic tee " "s"%char "hirt"); reflexivity.
  - apply Hplus. discriminate.
  - apply Hflag. reflexivity.
  - apply (Hnum 1150).
Defined.

Section Extra1.
Context `{PY : Python}.

Lemma alert_calls_app (t1 t2 : list event) :
  alert_calls (t1 ++ t2) = (alert_calls t1 ++ alert_calls t2)%list.
Proof. apply omap_app. Qed.

Lemma post_calls_app (t1 t2 : list event) :
  post_calls (t1 ++ t2) = (post_calls t1 ++ post_calls t2)%list.
Proof. apply omap_app. Qed.

Lemma logs_no_calls (logs : list event) :
  forallb is_log logs = true -> alert_calls logs = [] /\ post_calls logs = [].
Proof. induction logs as [|[] logs IH]; simpl; done. Qed.

Lemma alerted_alert_calls (t : list event) : alerted t = query <$> alert_calls t.
Proof.
  induction t as [|e t IH]; [done|]. destruct e; simpl; try done.
  unfold alerted, alert_calls in *. simpl. by rewrite IH.
Qed.

(** The loop body on a new candidate that the filter accepts. *)
Lemma run_item_alert (E : env) (st : scan) (c : candidate) :
  KStr (query c) ∉ seen_phrases (self st) -> is_valid_phrase (query c) = true ->
  exists lvl msg,
    run_item E st c
    = {| self := mark_seen (query c) (self st);
         new_trends_found := S (new_trends_found st);
         outside :=
           {| disk := disk (outside st);
              alerts := S (alerts (outside st));
              trace := trace (outside st) ++
                [Evaluate (query c); Alert (query c) (value c);
                 Post ("https://api.telegram.org/bot" ++ bot_token (self st) ++ "/sendMessage")
                      (channel_id (self st))
                      (message (query c) (value c) (now E (alerts (outside st)))) "HTML";
                 Log lvl msg] |} |}.
Proof.
  intros Hnew Hv. unfold run_item. rewrite Hv.
  destruct (decide (KStr (query c) ∈ seen_phrases (self st))); [done|].
  destruct (send_telegram_alert_spec E (self st) (query c) (value c)
              (emit (Evaluate (query c)) (outside st))) as (lvl & msg & ->).
  exists lvl, msg. simpl. by rewrite <- app_assoc.
Qed.

(** The loop sends what [new_alerts] lists: one alert and one post per
    entry, in that order, the k-th post stamped with the k-th reading of the
    clock; it marks exactly those candidates and counts them. *)
Lemma run_loop_new_alerts (E : env) (cs : list candidate) (st : scan) :
  let A := new_alerts (seen_phrases (self st)) cs in
  let st' := run_loop E st cs in
  alert_calls (trace (outside st')) = (alert_calls (trace (outside st)) ++ A)%list
  /\ post_calls (trace (outside st'))
     = (post_calls (trace (outside st))
        ++ imap (fun k c => post_for E (self st) (alerts (outside st) + k) c) A)%list
  /\ seen_phrases (self st') = marked A (seen_phrases (self st))
  /\ bot_token (self st') = bot_token (self st)
  /\ channel_id (self st') = channel_id (self st)
  /\ new_trends_found st' = (new_trends_found st + length A)%nat
  /\ alerts (outside st') = (alerts (outside st) + length A)%nat
  /\ disk (outside st') = disk (outside st).
Proof.
  revert st. induction cs as [|c cs IH]; intros st; cbn zeta.
  - simpl. rewrite !app_nil_r, !Nat.add_0_r. unfold marked. simpl.
    by rewrite (left_id_L ∅ (∪)).
  - rewrite run_loop_cons. specialize (IH (run_item E st c)). cbn zeta in IH.
    destruct IH as (H1 & H2 & H3 & H4 & H5 & H6 & H7 & H8).
    rewrite H1, H2, H3, H4, H5, H6, H7, H8. clear H1 H2 H3 H4 H5 H6 H7 H8.
    cbn [new_alerts].
    destruct (decide (KStr (query c) ∈ seen_phrases (self st))) as [Hin|Hin].
    { by rewrite (skip_when_seen E st c Hin). }
    destruct (is_valid_phrase (query c)) eqn:Hv.
    + destruct (run_item_alert E st c Hin Hv) as (lvl & msg & ->). simpl.
      rewrite !alert_calls_app, !post_calls_app. simpl.
      rewrite <- !app_assoc. simpl. rewrite Nat.add_0_r.
      repeat split; try lia.
      * by destruct c.
      * do 2 f_equal. apply imap_ext. intros k c' _. simpl.
        unfold post_for. simpl. by rewrite Nat.add_succ_r.
      * unfold marked. simpl. set_solver.
    + destruct (run_item_cases E st c) as [[? _]|[(_ & _ & ->)|(_ & ? & _)]];
        [done| |congruence].
      simpl. rewrite !alert_calls_app, !post_calls_app. simpl. by rewrite !app_nil_r.
Qed.

Lemma logged_app (t1 t2 : list event) : logged (t1 ++ t2) = (logged t1 ++ logged t2)%list.
Proof. apply omap_app. Qed.

(** One call of [run], read through [new_alerts]. *)
Lemma run_new_alerts (E : env) (m : TrendMonitor) (w : world) :
  let A := new_alerts (seen_phrases m) (potential_trends E) in
  alert_calls (trace (snd (run E m w))) = (alert_calls (trace w) ++ A)%list
  /\ post_calls (trace (snd (run E m w)))
     = (post_calls (trace w) ++ imap (fun k c => post_for E m (alerts w + k) c) A)%list
  /\ seen_phrases (fst (run E m w)) = marked A (seen_phrases m)
  /\ bot_token (fst (run E m w)) = bot_token m
  /\ channel_id (fst (run E m w)) = channel_id m
  /\ alerts (snd (run E m w)) = (alerts w + length A)%nat
  /\ disk (snd (run E m w))
     = match A with [] => disk w | _ :: _ => saved E (marked A (seen_phrases m)) end
  /\ last (logged (trace (snd (run E m w))))
     = Some (INFO,
             match A with
             | [] => "Scan complete. No new valid trends found."
             | _ :: _ => "Scan complete. " ++ pretty (length A) ++ " new alerts sent."
             end).
Proof.
  cbn zeta. remember (new_alerts (seen_phrases m) (potential_trends E)) as A eqn:HA.
  destruct (run_unfold E m w) as (logs & Hlogs & ->).
  destruct (logs_no_calls logs Hlogs) as [La Lp].
  match goal with |- context [run_loop E ?st0 ?cs] =>
    pose proof (run_loop_new_alerts E cs st0) as H; set (st := run_loop E st0 cs) in * end.
  cbn zeta in H. simpl in H. rewrite <- HA in H.
  destruct H as (H1 & H2 & H3 & H4 & H5 & H6 & H7 & H8).
  rewrite alert_calls_app, La, app_nil_r in H1.
  rewrite post_calls_app, Lp, app_nil_r in H2.
  destruct A as [|c A].
  - rewrite run_finish_idle by (rewrite H6; simpl; lia). simpl.
    rewrite alert_calls_app, post_calls_app, logged_app. simpl.
    rewrite last_snoc, !app_nil_r in *. simpl in *. rewrite Nat.add_0_r in *.
    repeat split; done.
  - rewrite run_finish_save by (rewrite H6; simpl; lia). simpl.
    destruct (save_trace E (seen_phrases (self st)) (outside st)) as (slogs & Hs & Hslogs & Hsa).
    destruct (logs_no_calls slogs Hslogs) as [Sa Sp].
    rewrite save_disk, Hs, Hsa, H3, H6.
    rewrite !alert_calls_app, !post_calls_app, !logged_app. simpl.
    rewrite Sa, Sp, !app_nil_r, last_snoc, H1, H2.
    repeat split; done.
Qed.

(** X1.  What one call of [run] sends is determined by the store it starts
    with and by the feed: it alerts the candidates [new_alerts] lists, in the
    order of the feed, each with the growth value of its first occurrence;
    the k-th post goes to the sendMessage address of the configured bot and
    channel, as HTML, with the text of the k-th alert stamped by the k-th
    reading of the clock.  The store gains exactly those phrases, the
    credentials are untouched, and the last log record reports their
    number. *)
Theorem scan_sends_new_alerts (E : env) (m : TrendMonitor) (w : world) :
  let A := new_alerts (seen_phrases m) (potential_trends E) in
  alert_calls (trace (snd (run E m w))) = (alert_calls (trace w) ++ A)%list
  /\ post_calls (trace (snd (run E m w)))
     = (post_calls (trace w) ++ imap (fun k c => post_for E m (alerts w + k) c) A)%list
  /\ seen_phrases (fst (run E m w)) = marked A (seen_phrases m)
  /\ bot_token (fst (run E m w)) = bot_token m
  /\ channel_id (fst (run E m w)) = channel_id m
  /\ alerts (snd (run E m w)) = (alerts w + length A)%nat
  /\ disk (snd (run E m w))
     = match A with [] => disk w | _ :: _ => saved E (marked A (seen_phrases m)) end
  /\ last (logged (trace (snd (run E m w))))
     = Some (INFO,
             match A with
             | [] => "Scan complete. No new valid trends found."
             | _ :: _ => "Scan complete. " ++ pretty (length A) ++ " new alerts sent."
             end).
Proof. apply run_new_alerts. Qed.

Lemma new_alerts_sublist (seen : gset pykey) (cs : list candidate) :
  sublist (new_alerts seen cs) cs.
Proof.
  revert seen. induction cs as [|c cs IH]; intros seen; simpl; [constructor|].
  destruct (decide (KStr (query c) ∈ seen)); [by apply sublist_cons|].
  destruct (is_valid_phrase (query c)); [by apply sublist_skip | by apply sublist_cons].
Qed.

Lemma new_alerts_fresh (seen : gset pykey) (cs : list candidate) (c : candidate) :
  c ∈ new_alerts seen cs -> (KStr (query c) ∉ seen) /\ is_valid_phrase (query c) = true.
Proof.
  revert seen. induction cs as [|c' cs IH]; intros seen; simpl; [intros Hc; inversion Hc|].
  destruct (decide (KStr (query c') ∈ seen)); [by apply IH|].
  destruct (is_valid_phrase (query c')) eqn:Hv; [|by apply IH].
  intros [->|Hc]%elem_of_cons; [done|].
  destruct (IH _ Hc) as [Hnew ?]. split; [set_solver|done].
Qed.

Lemma new_alerts_nodup (seen : gset pykey) (cs : list candidate) :
  NoDup (query <$> new_alerts seen cs).
Proof.
  revert seen. induction cs as [|c cs IH]; intros seen; simpl; [constructor|].
  destruct (decide (KStr (query c) ∈ seen)); [by apply IH|].
  destruct (is_valid_phrase (query c)); [|by apply IH].
  rewrite fmap_cons. constructor; [|by apply IH].
  intros (c' & Heq & Hc')%list_elem_of_fmap.
  destruct (new_alerts_fresh _ _ _ Hc') as [Hnew _]. apply Hnew. rewrite Heq. set_solver.
Qed.

(** A store that holds every accepted phrase of the feed leaves nothing to
    alert. *)
Lemma new_alerts_none (seen : gset pykey) (cs : list candidate) :
  (forall c, c ∈ cs -> is_valid_phrase (query c) = true -> KStr (query c) ∈ seen) ->
  new_alerts seen cs = [].
Proof.
  intros H. induction cs as [|c cs IH]; simpl; [done|].
  destruct (decide (KStr (query c) ∈ seen)) as [|Hnew].
  - apply IH. intros c' Hc'. apply H. by apply list_elem_of_further.
  - destruct (is_valid_phrase (query c)) eqn:Hv.
    + exfalso. apply Hnew, H; [apply list_elem_of_here | done].
    + apply IH. intros c' Hc'. apply H. by apply list_elem_of_further.
Qed.

(** Every accepted candidate of the feed is in the store after the pass. *)
Lemma new_alerts_complete (seen : gset pykey) (cs : list candidate) (c : candidate) :
  c ∈ cs -> is_valid_phrase (query c) = true ->
  KStr (query c) ∈ marked (new_alerts seen cs) seen.
Proof.
  unfold marked. revert seen. induction cs as [|c' cs IH]; intros seen;
    [intros Hc; inversion Hc|].
  intros Hc Hv. simpl.
  destruct (decide (KStr (query c') ∈ seen)) as [Hin|Hnew].
  - apply elem_of_cons in Hc as [->|Hc]; [by apply elem_of_union_r | by apply IH].
  - destruct (is_valid_phrase (query c')) eqn:Hv'.
    + rewrite fmap_cons, list_to_set_cons, !elem_of_union, elem_of_singleton.
      apply elem_of_cons in Hc as [->|Hc]; [by left; left|].
      specialize (IH ({[KStr (query c')]} ∪ seen) Hc Hv).
      rewrite !elem_of_union, elem_of_singleton in IH. tauto.
    + apply elem_of_cons in Hc as [->|Hc]; [congruence | by apply IH].
Qed.

End Extra1.

Section Extra2.
Context `{PY : Python}.

(** X2.  The alerts of a run follow the feed: the candidates alerted form a
    subsequence of the list the fetch returned, their phrases are pairwise
    distinct, and each of them was outside the store and accepted by the
    filter. *)
Theorem alerts_follow_the_feed (E : env) (m : TrendMonitor) (w : world) :
  exists A : list candidate,
    alert_calls (trace (snd (run E m w))) = (alert_calls (trace w) ++ A)%list
    /\ sublist A (potential_trends E)
    /\ NoDup (query <$> A)
    /\ (forall c, c ∈ A ->
          (KStr (query c) ∉ seen_phrases m) /\ is_valid_phrase (query c) = true).
Proof.
  exists (new_alerts (seen_phrases m) (potential_trends E)).
  split; [apply run_new_alerts|]. split; [apply new_alerts_sublist|].
  split; [apply new_alerts_nodup|]. intros c. apply new_alerts_fresh.
Qed.

End Extra2.

Section Extra3.
Context `{PY : Python}.

(** X3.  When the trends service raises, answers nothing, or has no rising
    queries, [run] returns the monitor as it was, leaves the disk and the
    alert counter alone, and only writes three log records: the start, the
    reason, and the completion without new trends. *)
Theorem empty_fetch_is_quiet (E : env) (m : TrendMonitor) (w : world) :
  (exists msg, trends E = RelatedRaises msg) \/ trends E = RelatedEmpty
  \/ trends E = RelatedRising None \/ trends E = RelatedRising (Some []) ->
  exists lvl reason,
    run E m w
    = (m, {| disk := disk w; alerts := alerts w;
             trace := trace w ++
               [Log INFO "Starting trend scan..."; Log lvl reason;
                Log INFO "Scan complete. No new valid trends found."] |})
    /\ (lvl = ERROR <-> exists msg, trends E = RelatedRaises msg).
Proof.
  intros [[msg H]|[H|[H|H]]]; unfold run, fetch_rising_queries, run_finish, run_loop, emit;
    rewrite H; simpl; rewrite <- !app_assoc; simpl;
    do 2 eexists; (split; [reflexivity|]); split; try done; eauto.
  all: by intros [? ?].
Qed.

End Extra3.

Lemma empty_fetch_is_quiet_witness :
  exists lvl reason,
    run (sample_env RelatedEmpty all_sent Written) fresh_monitor (boot Absent)
    = (fresh_monitor,
       {| disk := Absent; alerts := 0;
          trace := [Log INFO "Starting trend scan..."; Log lvl reason;
                    Log INFO "Scan complete. No new valid trends found."] |}).
Proof.
  destruct (empty_fetch_is_quiet (sample_env RelatedEmpty all_sent Written)
              fresh_monitor (boot Absent)) as (lvl & reason & H & _).
  - right. left. reflexivity.
  - exists lvl, reason. exact H.
Defined.

Section Extra4.
Context `{PY : Python}.

Lemma effects_emit_log (lvl : level) (msg : string) (w : world) :
  effects (trace (emit (Log lvl msg) w)) = effects (trace w).
Proof. simpl. by rewrite effects_app, app_nil_r. Qed.

(** X4.  The process ends with status 0 or 1.  It is 0 exactly when both
    credentials are set and non-empty, the trends client is constructed and
    loading the store raises nothing.  With status 1 the process has sent
    nothing, saved nothing and left the disk alone.  Missing credentials are
    detected first: one ERROR record, and neither the trends client nor the
    store file is touched. *)
Theorem exit_status (E : env) (w : world) :
  (fst (main E w) = 0 \/ fst (main E w) = 1)
  /\ (fst (main E w) = 0 <->
      truthy (getenv_token E) = true /\ truthy (getenv_channel E) = true
      /\ trendreq E = None /\ exists s, fst (_load_seen_phrases w) = Ok s)
  /\ (fst (main E w) = 1 ->
      effects (trace (snd (main E w))) = effects (trace w)
      /\ disk (snd (main E w)) = disk w)
  /\ (truthy (getenv_token E) = false \/ truthy (getenv_channel E) = false ->
      main E w
      = (1, emit (Log ERROR "Missing TELEGRAM_BOT_TOKEN or TELEGRAM_CHANNEL_ID env vars.") w)).
Proof.
  unfold main, __init__.
  destruct (truthy (getenv_token E)) eqn:Ht; simpl.
  2: { split; [by right|]. split; [split; [done | by intros (? & _)]|].
       split; [intros _; split; [by rewrite effects_app, app_nil_r | done] | done]. }
  destruct (truthy (getenv_channel E)) eqn:Hc; simpl.
  2: { split; [by right|]. split; [split; [done | by intros (_ & ? & _)]|].
       split; [intros _; split; [by rewrite effects_app, app_nil_r | done] | done]. }
  destruct (trendreq E) as [msg|] eqn:Hr; simpl.
  { split; [by right|]. split; [split; [done | by intros (_ & _ & ? & _)]|].
    split; [intros _; split; [by rewrite effects_app, app_nil_r | done] | by intros [|]]. }
  destruct (_load_seen_phrases w) as [[seen|e] w0] eqn:Hl; simpl.
  - split; [by left|]. split; [split; [intros _; eauto | done]|].
    split; [done | by intros [|]].
  - apply load_raises in Hl as [-> (msg & [->| ->])]; simpl;
      (split; [by right|]; split; [split; [done | by intros (_ & _ & _ & ? & ?)]|];
       split; [intros _; split; [by rewrite effects_app, app_nil_r | done] | by intros [|]]).
Qed.

End Extra4.

Lemma exit_status_witness :
  effects (trace (snd (main demo_env (boot (Document (JNum 42)))))) = effects []
  /\ disk (snd (main demo_env (boot (Document (JNum 42))))) = Document (JNum 42).
Proof.
  apply (proj1 (proj2 (proj2 (exit_status demo_env (boot (Document (JNum 42))))))).
  reflexivity.
Defined.

Section Extra5.
Context `{PY : Python}.

(** After a run whose save succeeds the file holds the store the monitor
    ends with, provided the monitor started with what the file held. *)
Lemma reload_after_run (E : env) (m : TrendMonitor) (w : world) :
  env_ok E -> write E = Written ->
  fst (_load_seen_phrases w) = Ok (seen_phrases m) ->
  fst (_load_seen_phrases (boot (disk (snd (run E m w)))))
  = Ok (seen_phrases (fst (run E m w))).
Proof.
  intros HE Hw Hl.
  destruct (run_new_alerts E m w) as (_ & _ & Hs & _ & _ & _ & Hd & _).
  rewrite Hd, Hs. destruct (new_alerts (seen_phrases m) (potential_trends E)) as [|c A].
  - unfold marked. simpl. rewrite (left_id_L ∅ (∪)), <- Hl. by apply load_result_disk.
  - unfold saved. rewrite Hw. erewrite load_document; [done|done|by apply py_set_dump].
Qed.

(** A process that reaches its scan, read through [new_alerts]. *)
Lemma main_new_alerts (E : env) (d : file) (w' : world) :
  main E (boot d) = (0, w') ->
  exists m w0,
    _load_seen_phrases (boot d) = (Ok (seen_phrases m), w0)
    /\ disk w0 = d
    /\ w' = snd (run E m w0)
    /\ alert_calls (trace w') = new_alerts (seen_phrases m) (potential_trends E)
    /\ disk w' = match new_alerts (seen_phrases m) (potential_trends E) with
                 | [] => d
                 | _ :: _ => saved E (marked (new_alerts (seen_phrases m) (potential_trends E))
                                        (seen_phrases m))
                 end.
Proof.
  intros [(m & w0 & Hl & _ & ->)|[? _]]%main_cases; [|done].
  exists m, w0.
  destruct (run_new_alerts E m w0) as (Ha & _ & _ & _ & _ & _ & Hd & _).
  pose proof (load_alerted (boot d)) as Ha0. rewrite Hl in Ha0. simpl in Ha0.
  pose proof (load_disk (boot d)) as Hd0. rewrite Hl in Hd0. simpl in Hd0.
  rewrite alerted_alert_calls in Ha0. apply fmap_nil_inv in Ha0.
  rewrite Ha, Ha0, Hd, Hd0. by repeat split.
Qed.

(** X5.  The store only grows.  A run never removes a member of the
    in-memory set, and, when the save succeeds, the set the next process
    loads contains the set this process loaded: it is that set together with
    the phrases alerted in between. *)
Theorem store_only_grows (E : env) (d0 : file) (s0 : gset pykey) (w1 : world) :
  env_ok E -> write E = Written ->
  fst (_load_seen_phrases (boot d0)) = Ok s0 ->
  main E (boot d0) = (0, w1) ->
  (forall (m : TrendMonitor) (w : world), seen_phrases m ⊆ seen_phrases (fst (run E m w)))
  /\ exists s1 : gset pykey,
       fst (_load_seen_phrases (boot (disk w1))) = Ok s1
       /\ s0 ⊆ s1
       /\ s1 = marked (alert_calls (trace w1)) s0.
Proof.
  intros HE Hw Hs0 Hmain. split.
  - intros m w. destruct (run_new_alerts E m w) as (_ & _ & -> & _).
    unfold marked. set_solver.
  - apply main_new_alerts in Hmain as (m & w0 & Hl & Hd0 & -> & Ha & _).
    rewrite Hl in Hs0. injection Hs0 as <-.
    exists (seen_phrases (fst (run E m w0))).
    split; [apply reload_after_run; try done;
            rewrite (load_result_disk w0 (boot d0)) by done; by rewrite Hl|].
    destruct (run_new_alerts E m w0) as (_ & _ & Hs & _).
    rewrite Ha, Hs. split; [unfold marked; set_solver | done].
Qed.

End Extra5.

Lemma store_only_grows_witness :
  exists s1 : gset pykey,
    fst (_load_seen_phrases (boot (disk demo_first))) = Ok s1
    /\ (∅ : gset pykey) ⊆ s1
    /\ s1 = marked (alert_calls (trace demo_first)) ∅.
Proof.
  apply (store_only_grows demo_env Absent ∅ demo_first).
  - intros s. reflexivity.
  - reflexivity.
  - reflexivity.
  - by vm_compute.
Defined.

Section Extra6.
Context `{PY : Python}.

(** X6.  Calling [run] again in the same process on the same feed sends
    nothing and writes nothing, whether or not the first call could save:
    the in-memory store alone suppresses the repeats. *)
Theorem second_run_in_process_is_silent (E1 E2 : env) (m : TrendMonitor) (w w' : world) :
  potential_trends E2 = potential_trends E1 ->
  alert_calls (trace (snd (run E2 (fst (run E1 m w)) w'))) = alert_calls (trace w')
  /\ post_calls (trace (snd (run E2 (fst (run E1 m w)) w'))) = post_calls (trace w')
  /\ seen_phrases (fst (run E2 (fst (run E1 m w)) w')) = seen_phrases (fst (run E1 m w))
  /\ disk (snd (run E2 (fst (run E1 m w)) w')) = disk w'.
Proof.
  intros Hcs.
  destruct (run_new_alerts E1 m w) as (_ & _ & Hs1 & _).
  destruct (run_new_alerts E2 (fst (run E1 m w)) w') as (Ha & Hp & Hs & _ & _ & _ & Hd & _).
  assert (new_alerts (seen_phrases (fst (run E1 m w))) (potential_trends E2) = []) as Hnone.
  { apply new_alerts_none. intros c Hc Hv. rewrite Hs1, <- Hcs.
    by apply new_alerts_complete. }
  rewrite Hnone in *. simpl in *. rewrite app_nil_r in *.
  repeat split; try done. rewrite Hs. unfold marked. simpl. by rewrite (left_id_L ∅ (∪)).
Qed.

End Extra6.

Lemma second_run_in_process_is_silent_witness :
  alert_calls (trace (snd (run failing_env
                             (fst (run failing_env fresh_monitor (boot Absent)))
                             (boot Absent))))
  = alert_calls [].
Proof.
  apply (second_run_in_process_is_silent failing_env failing_env fresh_monitor
           (boot Absent) (boot Absent)).
  reflexivity.
Defined.

Section Extra7.
Context `{PY : Python}.

(** A run appends to the trace. *)
Lemma run_trace_extends (E : env) (m : TrendMonitor) (w : world) :
  exists Δ, trace (snd (run E m w)) = (trace w ++ Δ)%list.
Proof.
  destruct (run_unfold E m w) as (logs & _ & ->).
  match goal with |- context [run_loop E ?st0 ?cs] =>
    destruct (run_loop_facts E cs st0) as [Δ []]; set (st := run_loop E st0 cs) in * end.
  simpl in *. unfold run_finish.
  destruct (0 <? new_trends_found st)%nat; simpl.
  - destruct (save_trace E (seen_phrases (self st)) (outside st)) as (slogs & -> & _).
    rewrite lf_trace0, <- !app_assoc. eauto.
  - rewrite lf_trace0, <- !app_assoc. eauto.
Qed.

(** A save that fails is logged as an error. *)
Lemma run_logs_failed_save (E : env) (m : TrendMonitor) (w : world)
    (msg : string) (left_behind : file) :
  write E = WriteFails msg left_behind ->
  new_alerts (seen_phrases m) (potential_trends E) <> [] ->
  Log ERROR ("Failed to save seen phrases: " ++ msg) ∈ trace (snd (run E m w)).
Proof.
  intros Hw HA. destruct (run_unfold E m w) as (logs & _ & ->).
  match goal with |- context [run_loop E ?st0 ?cs] =>
    pose proof (run_loop_new_alerts E cs st0) as H; set (st := run_loop E st0 cs) in * end.
  cbn zeta in H. simpl in H. destruct H as (_ & _ & _ & _ & _ & Hn & _).
  rewrite run_finish_save.
  - unfold _save_seen_phrases. rewrite Hw. simpl.
    rewrite !elem_of_app, !list_elem_of_singleton. tauto.
  - rewrite Hn. destruct (new_alerts (seen_phrases m) (potential_trends E)); [done|simpl; lia].
Qed.

(** X7.  A store file that is unreadable or is not JSON does not stop the
    process: it logs the warning first, starts from the empty store, and so
    alerts every accepted phrase of the feed once.  If anything was alerted
    and the write succeeds, the file is sound again and holds exactly those
    phrases. *)
Theorem corrupt_store_starts_fresh (E : env) (d : file) (msg : string) :
  d = NotJson msg \/ d = Unreadable msg ->
  truthy (getenv_token E) = true -> truthy (getenv_channel E) = true ->
  trendreq E = None ->
  fst (main E (boot d)) = 0
  /\ head (trace (snd (main E (boot d))))
     = Some (Log WARNING "Could not read seen_trends.json. Starting fresh.")
  /\ alert_calls (trace (snd (main E (boot d)))) = new_alerts ∅ (potential_trends E)
  /\ (env_ok E -> write E = Written -> new_alerts ∅ (potential_trends E) <> [] ->
      fst (_load_seen_phrases (boot (disk (snd (main E (boot d))))))
      = Ok (marked (new_alerts ∅ (potential_trends E)) ∅)).
Proof.
  intros Hd Ht Hc Hr.
  assert (disk (boot d) = NotJson msg \/ disk (boot d) = Unreadable msg) as Hd' by done.
  pose proof (load_not_json (boot d) msg Hd') as Hl.
  destruct (main_runs E _ _ _ Ht Hc Hr Hl) as (m & Hm & ->). simpl.
  destruct (run_new_alerts E m
              (emit (Log WARNING "Could not read seen_trends.json. Starting fresh.") (boot d)))
    as (Ha & _ & Hs & _ & _ & _ & Hdisk & _).
  rewrite Hm in *. simpl in Ha.
  split; [done|]. split; [|split; [done|]].
  - destruct (run_trace_extends E m
                (emit (Log WARNING "Could not read seen_trends.json. Starting fresh.") (boot d)))
      as (Δ & ->). done.
  - intros HE Hw HA. rewrite Hdisk.
    destruct (new_alerts ∅ (potential_trends E)) as [|c A]; [done|].
    unfold saved. rewrite Hw. erewrite load_document; [done|done|by apply py_set_dump].
Qed.

End Extra7.

Lemma corrupt_store_starts_fresh_witness :
  alert_calls (trace (snd (main demo_env (boot (NotJson "Expecting value")))))
  = [ {| query := "Oversized Shirt"; value := GStr "250" |} ].
Proof.
  destruct (corrupt_store_starts_fresh demo_env (NotJson "Expecting value") "Expecting value")
    as (_ & _ & H & _).
  - by left.
  - reflexivity.
  - reflexivity.
  - reflexivity.
  - rewrite H. by vm_compute.
Defined.

Section Extra8.
Context `{PY : Python}.

(** X8.  A save that fails does not stop the run, but the alerts are not
    remembered: when the failure leaves the file as it was, the next process
    on the same feed sends the same alerts again.  The failure is logged as
    an error. *)
Theorem failed_save_repeats_alerts (E1 E2 : env) (d0 : file) (msg : string)
    (w1 w2 : world) :
  write E1 = WriteFails msg d0 ->
  potential_trends E2 = potential_trends E1 ->
  main E1 (boot d0) = (0, w1) ->
  main E2 (boot (disk w1)) = (0, w2) ->
  disk w1 = d0
  /\ alert_calls (trace w2) = alert_calls (trace w1)
  /\ (alert_calls (trace w1) <> [] ->
      Log ERROR ("Failed to save seen phrases: " ++ msg) ∈ trace w1).
Proof.
  intros Hw Hcs Hm1 Hm2.
  apply main_new_alerts in Hm1 as (m1 & w0 & Hl1 & _ & -> & Ha1 & Hd1).
  assert (disk (snd (run E1 m1 w0)) = d0) as Hdisk.
  { rewrite Hd1. unfold saved. rewrite Hw.
    by destruct (new_alerts (seen_phrases m1) (potential_trends E1)). }
  rewrite Hdisk in Hm2.
  apply main_new_alerts in Hm2 as (m2 & w0' & Hl2 & _ & -> & Ha2 & _).
  rewrite Hl1 in Hl2. injection Hl2 as Hseen _.
  split; [done|]. split.
  - by rewrite Ha1, Ha2, Hseen, Hcs.
  - rewrite Ha1. intros HA. by eapply run_logs_failed_save.
Qed.

End Extra8.

Lemma failed_save_repeats_alerts_witness :
  disk unwritable_first = Absent
  /\ alert_calls (trace unwritable_second) = alert_calls (trace unwritable_first)
  /\ alert_calls (trace unwritable_first)
     = [ {| query := "Oversized Shirt"; value := GStr "250" |} ].
Proof.
  destruct (failed_save_repeats_alerts unwritable_env unwritable_env Absent
              "Permission denied" unwritable_first unwritable_second) as (H1 & H2 & _).
  - reflexivity.
  - reflexivity.
  - by vm_compute.
  - by vm_compute.
  - split; [exact H1|]. split; [exact H2 | by vm_compute].
Defined.

Section Extra9.
Context `{PY : Python}.

Lemma lower_upper_char (c : ascii) : lower_char (upper_char c) = lower_char c.
Proof. by destruct c as [[] [] [] [] [] [] [] []]. Qed.

Lemma lower_title_from (prev : bool) (s : string) :
  lower_ascii (title_from prev s) = lower_ascii s.
Proof.
  revert prev. induction s as [|c s IH]; intros prev; simpl; [done|].
  rewrite IH. by destruct prev; rewrite ?lower_char_idemp, ?lower_upper_char.
Qed.

Lemma case_char_ascii (c : ascii) :
  (nat_of_ascii c <? 128)%nat = true ->
  (nat_of_ascii (lower_char c) <? 128)%nat = true
  /\ (nat_of_ascii (upper_char c) <? 128)%nat = true.
Proof. by destruct c as [[] [] [] [] [] [] [] []]. Qed.

Lemma title_from_is_ascii (prev : bool) (s : string) :
  is_ascii s = true -> is_ascii (title_from prev s) = true.
Proof.
  revert prev. induction s as [|c s IH]; intros prev; simpl; [done|].
  intros [Hc Hs]%andb_true_iff. rewrite (IH _ Hs), andb_true_r.
  destruct (case_char_ascii c Hc). by destruct prev.
Qed.

(** X9.  On ASCII phrases the filter does not see letter case: two phrases
    with the same lower-case form get the same verdict, and so the title
    shown in the alert gets the verdict of the phrase it was made from. *)
Theorem filter_ignores_ascii_case (p q : string) :
  ascii_faithful -> is_ascii p = true -> is_ascii q = true ->
  lower_ascii p = lower_ascii q ->
  is_valid_phrase p = is_valid_phrase q
  /\ is_valid_phrase (title p) = is_valid_phrase p.
Proof.
  intros HF Hp Hq Hpq. pose proof HF as [Hl Ht].
  assert (forall a b, is_ascii a = true -> is_ascii b = true ->
            lower_ascii a = lower_ascii b -> is_valid_phrase a = is_valid_phrase b) as Hsame.
  { intros a b Ha Hb Hab. unfold is_valid_phrase. by rewrite (Hl _ Ha), (Hl _ Hb), Hab. }
  split; [by apply Hsame|].
  rewrite (Ht _ Hp). apply Hsame; [by apply title_from_is_ascii | done |].
  apply lower_title_from.
Qed.

End Extra9.

Lemma filter_ignores_ascii_case_witness :
  is_valid_phrase "OVERSIZED Shirt" = is_valid_phrase "oversized shirt"
  /\ is_valid_phrase (title "OVERSIZED Shirt") = is_valid_phrase "OVERSIZED Shirt".
Proof.
  apply (filter_ignores_ascii_case "OVERSIZED Shirt" "oversized shirt").
  - apply ascii_python_faithful.
  - reflexivity.
  - reflexivity.
  - reflexivity.
Defined.

Section Extra10.
Context `{PY : Python}.

Lemma string_app_assoc (s t u : string) : (s ++ t) ++ u = s ++ t ++ u.
Proof.
  induction s as [|ch s IH]; [done|].
  change (String ch ((s ++ t) ++ u) = String ch (s ++ t ++ u)). by rewrite IH.
Qed.

Lemma occurs_in_trans (a b c : string) : occurs_in a b -> occurs_in b c -> occurs_in a c.
Proof.
  intros (p1 & q1 & ->) (p2 & q2 & ->). exists (p2 ++ p1), (q1 ++ q2).
  by rewrite !string_app_assoc.
Qed.

(** X10.  On ASCII phrases matching is by substring, not by word: text
    added before or after a phrase never rescues it.  If an exclusion entry
    occurs in a phrase in any letter case, every phrase that contains that
    phrase is rejected; and if a phrase is accepted, so is every part of it
    that still contains the keyword. *)
Theorem filter_rejects_every_extension (pre p post : string) :
  ascii_faithful -> is_ascii (pre ++ p ++ post) = true ->
  ((exists item, item ∈ exclusion_entries /\ occurs_nocase item p) ->
   is_valid_phrase (pre ++ p ++ post) = false)
  /\ (is_valid_phrase (pre ++ p ++ post) = true -> occurs_in "shirt" (lower p) ->
      is_valid_phrase p = true).
Proof.
  intros HF Hall. pose proof HF as [Hl _].
  assert (is_ascii p = true) as Hp.
  { rewrite !is_ascii_app in Hall. by apply andb_true_iff in Hall as [_ [? _]%andb_true_iff]. }
  assert (occurs_in (lower p) (lower (pre ++ p ++ post))) as Hsub.
  { rewrite (Hl _ Hp), (Hl _ Hall). exists (lower_ascii pre), (lower_ascii post).
    by rewrite !lower_app. }
  split.
  - intros (item & Hin & Hocc). apply not_true_is_false.
    rewrite is_valid_phrase_iff. intros [_ Hno]. apply (Hno item Hin).
    apply occurs_nocase_spec in Hocc.
    pose proof exclusion_entries_lower as He. rewrite List.Forall_forall in He.
    apply list_elem_of_In in Hin. destruct (He item Hin) as [He' _].
    rewrite He', <- (Hl _ Hp) in Hocc. by eapply occurs_in_trans.
  - intros Hv Hk. apply is_valid_phrase_iff in Hv as [_ Hno].
    apply is_valid_phrase_iff. split; [done|].
    intros item Hin Hocc. apply (Hno item Hin). by eapply occurs_in_trans.
Qed.

End Extra10.

Lemma filter_rejects_every_extension_witness :
  is_valid_phrase ("vintage " ++ "redshirt" ++ " for men") = false.
Proof.
  apply (proj1 (filter_rejects_every_extension "vintage " "redshirt" " for men"
                  ascii_python_faithful eq_refl)).
  exists "red". split; [apply list_elem_of_In; simpl; tauto|].
  exists "red". split; [by exists "", "shirt" | reflexivity].
Defined.

(** X11.  The verdict of an exclusion check depends on which entries the
    set has, not on the order in which the set is iterated nor on
    repetitions. *)
Theorem exclusion_check_ignores_order (lower_phrase : string) (l1 l2 : list string) :
  (forall item, item ∈ l1 <-> item ∈ l2) ->
  contains_excluded lower_phrase l1 = contains_excluded lower_phrase l2.
Proof.
  intros Hsame. apply eq_true_iff_eq. rewrite !contains_excluded_spec.
  split; intros (item & Hin & Hocc); exists item; (split; [by apply Hsame | done]).
Qed.

Lemma exclusion_check_ignores_order_witness :
  contains_excluded "red denim shirt" ["wool"; "denim"; "wool"]
  = contains_excluded "red denim shirt" ["denim"; "wool"].
Proof.
  apply exclusion_check_ignores_order. intros item.
  rewrite !elem_of_cons. tauto.
Defined.

(** X12.  A store file that holds a JSON array of strings loads, without a
    warning, as the set of its entries: their order and repetitions do not
    matter.  A file that holds a JSON object is accepted just as silently,
    and its keys become the seen phrases. *)
Theorem load_reads_entries_as_a_set (w : world) (l1 l2 : list string)
    (members : list (string * json)) :
  (disk w = Document (JArr (JStr <$> l1)) ->
   _load_seen_phrases w = (Ok (list_to_set (KStr <$> l1)), w)
   /\ (forall q, KStr q ∈ (list_to_set (KStr <$> l1) : gset pykey) <-> q ∈ l1)
   /\ ((forall q, q ∈ l1 <-> q ∈ l2) ->
       (list_to_set (KStr <$> l1) : gset pykey) = list_to_set (KStr <$> l2)))
  /\ (disk w = Document (JObj members) ->
      _load_seen_phrases w = (Ok (list_to_set (KStr <$> members.*1)), w)).
Proof.
  assert (forall l q, KStr q ∈ (list_to_set (KStr <$> l) : gset pykey) <-> q ∈ l) as Hmem.
  { intros l q. rewrite elem_of_list_to_set, list_elem_of_fmap. split.
    - by intros (q' & [= <-] & Hq).
    - intros Hq. by exists q. }
  split.
  - intros Hd. split; [|split].
    + eapply load_document; [done|]. unfold py_set.
      replace (mapM key_of_json (JStr <$> l1)) with (Some (KStr <$> l1)); [done|].
      symmetry. apply mapM_Some. clear Hd. induction l1 as [|q l1 IH]; simpl; by constructor.
    + apply Hmem.
    + intros Hsame. apply set_eq. intros k.
      rewrite !elem_of_list_to_set, !list_elem_of_fmap.
      split; intros (q & -> & Hq); exists q; (split; [done | by apply Hsame]).
  - intros Hd. eapply load_document; [done|]. unfold py_set.
    by rewrite <- list_fmap_compose.
Qed.

Lemma load_reads_entries_as_a_set_witness :
  _load_seen_phrases (boot (Document (JArr (JStr <$> ["polo shirt"; "tee shirt"; "polo shirt"]))))
  = (Ok (list_to_set (KStr <$> ["polo shirt"; "tee shirt"; "polo shirt"])),
     boot (Document (JArr (JStr <$> ["polo shirt"; "tee shirt"; "polo shirt"])))).
Proof.
  apply (proj1 (load_reads_entries_as_a_set
                  (boot (Document (JArr (JStr <$> ["polo shirt"; "tee shirt"; "polo shirt"]))))
                  ["polo shirt"; "tee shirt"; "polo shirt"] [] [])).
  reflexivity.
Defined.
